(** * VoiceGenie Lite: the chat component of [src/App.tsx]

    A shallow embedding of the component's state, of its handlers
    ([handleSubmit], [generateAIResponse], [speakText], [stopSpeaking]) and
    of the browser interfaces they call, followed by the properties of the
    conversation store, of the completion client and of the speech
    controller. *)

From Stdlib Require Import List String Ascii Bool NArith ZArith QArith Lia.
From Stdlib Require Import DecimalString.
Import ListNotations.

Set Implicit Arguments.
Set Warnings "-register-all".

(** ** ECMAScript strings and values *)

(** A string is a sequence of UTF-16 code units. *)
Definition code_unit := N.
Definition jsstring := list code_unit.

(** An ASCII literal of the source, as code units. *)
Definition lit (s : string) : jsstring :=
  map N_of_ascii (list_ascii_of_string s).

(** WhiteSpace and LineTerminator code points of ECMA-262, the ones
    [String.prototype.trim] strips. *)
Definition is_white_space (c : code_unit) : bool :=
  ((9 <=? c) && (c <=? 13) || (c =? 32) || (c =? 160) || (c =? 5760)
   || (8192 <=? c) && (c <=? 8202) || (c =? 8232) || (c =? 8233)
   || (c =? 8239) || (c =? 8287) || (c =? 12288) || (c =? 65279))%N.

Fixpoint trimStart (s : jsstring) : jsstring :=
  match s with
  | [] => []
  | c :: r => if is_white_space c then trimStart r else s
  end.

Definition trimEnd (s : jsstring) : jsstring := rev (trimStart (rev s)).

Definition trim (s : jsstring) : jsstring := trimEnd (trimStart s).

(** [!s] for a string [s]: only the empty string is falsy. *)
Definition string_falsy (s : jsstring) : bool :=
  match s with [] => true | _ :: _ => false end.

(** What [JSON.parse] (and so [response.json()]) can produce. *)
Inductive json : Type :=
| JNull
| JBool (b : bool)
| JNumber (q : Q)
| JString (s : jsstring)
| JArray (items : list json)
| JObject (fields : list (jsstring * json)).

(** A run-time value of type [any]: [undefined], or a JSON value. *)
Inductive value : Type :=
| Undefined
| Val (j : json).

Definition Str (s : jsstring) : value := Val (JString s).

Definition jsstring_eqb (a b : jsstring) : bool :=
  if list_eq_dec N.eq_dec a b then true else false.

Fixpoint lookup (k : jsstring) (fields : list (jsstring * json)) : value :=
  match fields with
  | [] => Undefined
  | (k', v) :: rest => if jsstring_eqb k k' then Val v else lookup k rest
  end.

(** ToBoolean. *)
Definition truthy (v : value) : bool :=
  match v with
  | Undefined => false
  | Val JNull => false
  | Val (JBool b) => b
  | Val (JNumber q) => negb (Qeq_bool q 0)
  | Val (JString s) => negb (string_falsy s)
  | Val (JArray _) => true
  | Val (JObject _) => true
  end.

Definition is_string (v : value) : bool :=
  match v with
  | Val (JString _) => true
  | _ => false
  end.

(** An [Error] object: every exception the component can meet is one
    (the [TypeError] of a failed property read, the rejections of [fetch]
    and of [response.json()], and the [Error] the client builds itself). *)
Record JSError : Type := mkError { name : jsstring; message : jsstring }.

(** What the engine leaves to the implementation: the decimal rendering of a
    Number, [JSON.stringify] on parsed JSON, and the texts of the [TypeError]s
    raised when a property of [undefined] or [null] is read and when an
    object has no primitive value. *)
Record Engine : Type := {
  Number_toString : Q -> jsstring;
  JSON_stringify : json -> jsstring;
  cannot_read : value -> jsstring -> jsstring;
  cannot_convert : jsstring
}.

(** ** Completions and effects *)

Inductive completion (A : Type) : Type :=
| Normal (a : A)
| Thrown (e : JSError).
Arguments Normal {A} a.
Arguments Thrown {A} e.

(** The body of a [fetch] call. *)
Record Request : Type := {
  url : jsstring;
  method : jsstring;
  headers : list (jsstring * jsstring);
  body : jsstring
}.

(** A [Response]: [response.json()] either yields the parsed body or rejects. *)
Record Response : Type := {
  status : N;
  statusText : jsstring;
  json_body : completion json
}.

(** [response.ok]: the status is in the range 200-299. *)
Definition ok (r : Response) : bool :=
  ((200 <=? status r) && (status r <=? 299))%N.

(** The network, as the client sees it: a request is answered by a response
    or the [fetch] promise rejects. *)
Definition Transport := Request -> completion Response.

(** An utterance handed to the speech engine. *)
Record Utterance : Type := {
  text : jsstring;
  rate : Q;
  pitch : Q;
  volume : Q
}.

Inductive LogArg : Type :=
| LStr (s : jsstring)
| LErr (e : JSError)
| LJson (j : json).

(** Calls into the platform, in the order they are made. *)
Inductive Effect : Type :=
| ConsoleError (args : list LogArg)
| Fetch (req : Request)
| SpeechCancel
| SpeechSpeak (u : Utterance).

(** A computation that logs effects and may throw. *)
Definition M (A : Type) : Type := (list Effect * completion A)%type.

Definition ret {A} (a : A) : M A := ([], Normal a).

Definition throw {A} (e : JSError) : M A := ([], Thrown e).

Definition bind {A B} (m : M A) (f : A -> M B) : M B :=
  match m with
  | (t, Normal a) => let (t', r) := f a in (t ++ t', r)
  | (t, Thrown e) => (t, Thrown e)
  end.

(** [try { m } catch (error) { h error }]. *)
Definition try_catch {A} (m : M A) (h : JSError -> M A) : M A :=
  match m with
  | (t, Normal a) => (t, Normal a)
  | (t, Thrown e) => let (t', r) := h e in (t ++ t', r)
  end.

Definition emit (e : Effect) : M unit := ([e], Normal tt).

Definition lift {A} (c : completion A) : M A := ([], c).

Declare Scope js_scope.
Delimit Scope js_scope with js.
Notation "x <- m ;; k" := (bind m (fun x => k))
  (at level 61, m at next level, right associativity) : js_scope.
Notation "m ;; k" := (bind m (fun _ => k))
  (at level 61, right associativity) : js_scope.
Notation "a +++ b" := (@app code_unit a b)
  (at level 60, right associativity) : js_scope.

(** ** Property reads and string conversion *)

Definition TypeError (eng : Engine) (v : value) (k : jsstring) : JSError :=
  mkError (lit "TypeError") (cannot_read eng v k).

(** [v.k], for a name [k] that no built-in prototype defines ([choices],
    [message], [content]): reading from [undefined] or [null] throws, an
    object gives its own property, anything else gives [undefined]. *)
Definition get_field (eng : Engine) (v : value) (k : jsstring) : M value :=
  match v with
  | Undefined | Val JNull => throw (TypeError eng v k)
  | Val (JObject fields) => ret (lookup k fields)
  | Val _ => ret Undefined
  end.

(** [v[0]]. *)
Definition get_index0 (eng : Engine) (v : value) : M value :=
  match v with
  | Undefined | Val JNull => throw (TypeError eng v (lit "0"))
  | Val (JArray items) =>
      ret (match items with [] => Undefined | x :: _ => Val x end)
  | Val (JString s) =>
      ret (match s with [] => Undefined | c :: _ => Str [c] end)
  | Val (JObject fields) => ret (lookup (lit "0") fields)
  | Val _ => ret Undefined
  end.

(** ToString on parsed JSON. A parsed object holds data only: one without
    an own [toString] key converts through [Object.prototype.toString];
    one with such a key has no callable [toString] and [valueOf] gives back
    the object, so the conversion throws. An array joins its elements, with
    [null] as the empty string, and throws where an element does. *)
Fixpoint json_toString (eng : Engine) (j : json) : completion jsstring :=
  match j with
  | JNull => Normal (lit "null")
  | JBool true => Normal (lit "true")
  | JBool false => Normal (lit "false")
  | JNumber q => Normal (Number_toString eng q)
  | JString s => Normal s
  | JArray items =>
      (fix join (l : list json) : completion jsstring :=
         match l with
         | [] => Normal []
         | x :: rest =>
             match match x with
                   | JNull => Normal []
                   | _ => json_toString eng x
                   end with
             | Thrown e => Thrown e
             | Normal piece =>
                 match rest with
                 | [] => Normal piece
                 | _ :: _ =>
                     match join rest with
                     | Thrown e => Thrown e
                     | Normal tail => Normal (piece ++ lit "," ++ tail)
                     end
                 end
             end
         end) items
  | JObject fields =>
      match lookup (lit "toString") fields with
      | Undefined => Normal (lit "[object Object]")
      | Val _ => Thrown (mkError (lit "TypeError") (cannot_convert eng))
      end
  end.

(** ToString, as a template literal applies it. *)
Definition toString (eng : Engine) (v : value) : completion jsstring :=
  match v with
  | Undefined => Normal (lit "undefined")
  | Val j => json_toString eng j
  end.

(** The conversion of an optional [DOMString] argument: [undefined] counts
    as the argument left out, which gives the empty string. *)
Definition optional_DOMString (eng : Engine) (v : value)
  : completion jsstring :=
  match v with
  | Undefined => Normal []
  | Val j => json_toString eng j
  end.

(** [a || b]. *)
Definition or_else (a b : value) : value := if truthy a then a else b.

(** ** The completion client *)

Section Client.

Variable eng : Engine.

Local Open Scope js_scope.

Definition console_error (args : list LogArg) : M unit :=
  emit (ConsoleError args).

(** [await fetch(url, init)]. *)
Definition fetch (net : Transport) (req : Request) : M Response :=
  emit (Fetch req) ;; lift (net req).

(** [await response.json()]. *)
Definition Response_json (r : Response) : M json := lift (json_body r).

(** [!GROQ_API_KEY]: the variable is [undefined] or the empty string. *)
Definition key_missing (key : option jsstring) : bool :=
  match key with
  | None => true
  | Some k => string_falsy k
  end.

Definition key_text (key : option jsstring) : jsstring :=
  match key with
  | None => lit "undefined"
  | Some k => k
  end.

Definition endpoint : jsstring :=
  lit "https://api.groq.com/openai/v1/chat/completions".

Definition missing_key_reply : jsstring :=
  lit "I'm sorry, I cannot connect to the AI service. Please ensure the API key is configured correctly.".

(** The object given to [JSON.stringify] for the request body. *)
Definition request_payload (userInput : jsstring) : json :=
  JObject
    [ (lit "model", JString (lit "gemma2-9b-it"));
      (lit "messages",
       JArray [ JObject [ (lit "role", JString (lit "user"));
                          (lit "content", JString userInput) ] ]);
      (lit "max_tokens", JNumber 500);
      (lit "temperature", JNumber (7 # 10));
      (lit "stream", JBool false) ].

Definition completion_request (key : option jsstring) (userInput : jsstring)
  : Request :=
  {| url := endpoint;
     method := lit "POST";
     headers := [ (lit "Content-Type", lit "application/json");
                  (lit "Authorization", lit "Bearer " +++ key_text key) ];
     body := JSON_stringify eng (request_payload userInput) |}.

(** The message of the [Error] thrown on a non-2xx status, [detail] being
    the text of [errorData.message || JSON.stringify(errorData)]. *)
Definition api_error_message (r : Response) (detail : jsstring) : jsstring :=
  lit "Groq API error: "
  +++ Number_toString eng (inject_Z (Z.of_N (status r)))
  +++ lit " " +++ statusText r +++ lit " - " +++ detail.

(** The reply built in the [catch] block. *)
Definition apology (reason : jsstring) : jsstring :=
  lit "I apologize, but I encountered an issue fetching a response. Please try again. ("
  +++ reason +++ lit ")".

(** [data.choices[0].message.content]. *)
Definition reply_content (data : json) : M value :=
  choices <- get_field eng (Val data) (lit "choices") ;;
  choice <- get_index0 eng choices ;;
  msg <- get_field eng choice (lit "message") ;;
  get_field eng msg (lit "content").

(** The [if (!response.ok)] block. *)
Definition check_ok (response : Response) : M unit :=
  if negb (ok response) then
    errorData <- Response_json response ;;
    console_error [LStr (lit "Groq API error response:"); LJson errorData] ;;
    m <- get_field eng (Val errorData) (lit "message") ;;
    detail <- lift (toString eng
                      (or_else m (Str (JSON_stringify eng errorData)))) ;;
    throw (mkError (lit "Error") (api_error_message response detail))
  else ret tt.

(** The [try] block. *)
Definition attempt (key : option jsstring) (net : Transport)
  (userInput : jsstring) : M value :=
  response <- fetch net (completion_request key userInput) ;;
  check_ok response ;;
  data <- Response_json response ;;
  reply_content data.

(** The [catch] block. *)
Definition recover (error : JSError) : M value :=
  console_error [LStr (lit "Error calling Groq API:"); LErr error] ;;
  ret (Str (apology (message error))).

Definition generateAIResponse (key : option jsstring) (net : Transport)
  (userInput : jsstring) : M value :=
  if key_missing key then
    console_error [LStr (lit "GROQ_API_KEY is not set in environment variables.")] ;;
    ret (Str missing_key_reply)
  else
    try_catch (attempt key net userInput) recover.

End Client.

(** ** The component *)

Inductive MessageType : Type := user | ai.

Record Message : Type := {
  id : jsstring;
  type : MessageType;
  content : value;
  timestamp : Z
}.

(** The [useState] cells of [App]. *)
Record State : Type := {
  input : jsstring;
  messages : list Message;
  isLoading : bool;
  isSpeaking : bool;
  speechEnabled : bool;
  error : jsstring
}.

(** The callbacks given to [setTimeout]: [() => setError('')], and
    [() => speakText(aiResponse)] with the [speechEnabled] its [speakText]
    closed over. *)
Inductive Callback : Type :=
| ClearError
| Narrate (enabled : bool) (reply : value).

Record Timer : Type := { callback : Callback; delay : N }.

(** A [handleSubmit] suspended at [await generateAIResponse(...)]: the
    argument of the call and the [speechEnabled] of its render. *)
Record Pending : Type := { prompt : jsstring; speech_at_submit : bool }.

(** What the page is given: the build-time key, and whether
    ['speechSynthesis' in window]. *)
Record Env : Type := {
  VITE_GROQ_API_KEY : option jsstring;
  speechSynthesis_in_window : bool
}.

(** The component together with the platform state it drives: pending
    timers, submissions awaiting their reply, the utterance queue of the
    speech engine, and the log of platform calls. *)
Record World : Type := {
  ui : State;
  timers : list Timer;
  awaiting : list Pending;
  utterances : list Utterance;
  log : list Effect
}.

Definition with_ui (f : State -> State) (w : World) : World :=
  {| ui := f (ui w); timers := timers w; awaiting := awaiting w;
     utterances := utterances w; log := log w |}.

Definition setInput (v : jsstring) : World -> World :=
  with_ui (fun s =>
    {| input := v; messages := messages s; isLoading := isLoading s;
       isSpeaking := isSpeaking s; speechEnabled := speechEnabled s;
       error := error s |}).

Definition setMessages (f : list Message -> list Message) : World -> World :=
  with_ui (fun s =>
    {| input := input s; messages := f (messages s); isLoading := isLoading s;
       isSpeaking := isSpeaking s; speechEnabled := speechEnabled s;
       error := error s |}).

Definition setIsLoading (b : bool) : World -> World :=
  with_ui (fun s =>
    {| input := input s; messages := messages s; isLoading := b;
       isSpeaking := isSpeaking s; speechEnabled := speechEnabled s;
       error := error s |}).

Definition setIsSpeaking (b : bool) : World -> World :=
  with_ui (fun s =>
    {| input := input s; messages := messages s; isLoading := isLoading s;
       isSpeaking := b; speechEnabled := speechEnabled s;
       error := error s |}).

Definition setSpeechEnabled (b : bool) : World -> World :=
  with_ui (fun s =>
    {| input := input s; messages := messages s; isLoading := isLoading s;
       isSpeaking := isSpeaking s; speechEnabled := b;
       error := error s |}).

Definition setError (e : jsstring) : World -> World :=
  with_ui (fun s =>
    {| input := input s; messages := messages s; isLoading := isLoading s;
       isSpeaking := isSpeaking s; speechEnabled := speechEnabled s;
       error := e |}).

Definition setTimeout (cb : Callback) (ms : N) (w : World) : World :=
  {| ui := ui w; timers := timers w ++ [{| callback := cb; delay := ms |}];
     awaiting := awaiting w; utterances := utterances w; log := log w |}.

Definition set_awaiting (l : list Pending) (w : World) : World :=
  {| ui := ui w; timers := timers w; awaiting := l;
     utterances := utterances w; log := log w |}.

Definition set_timers (l : list Timer) (w : World) : World :=
  {| ui := ui w; timers := l; awaiting := awaiting w;
     utterances := utterances w; log := log w |}.

Definition set_utterances (l : list Utterance) (w : World) : World :=
  {| ui := ui w; timers := timers w; awaiting := awaiting w;
     utterances := l; log := log w |}.

Definition logged (t : list Effect) (w : World) : World :=
  {| ui := ui w; timers := timers w; awaiting := awaiting w;
     utterances := utterances w; log := log w ++ t |}.

(** [window.speechSynthesis.cancel()]: the queue is emptied. *)
Definition speechSynthesis_cancel (w : World) : World :=
  set_utterances [] (logged [SpeechCancel] w).

(** [window.speechSynthesis.speak(u)]: [u] joins the queue. *)
Definition speechSynthesis_speak (u : Utterance) (w : World) : World :=
  set_utterances (utterances w ++ [u]) (logged [SpeechSpeak u] w).

Fixpoint remove_nth {A} (i : nat) (l : list A) : list A :=
  match i, l with
  | _, [] => []
  | O, _ :: r => r
  | S j, x :: r => x :: remove_nth j r
  end.

Definition validation_message : jsstring :=
  lit "Please enter a question or command".

Definition failure_message : jsstring :=
  lit "Failed to get response. Please try again.".

Section Component.

Variable eng : Engine.
Variable env : Env.

(** [enabled] is the [speechEnabled] of the render whose [speakText] this
    is. When [new SpeechSynthesisUtterance(text)] throws on its argument, the
    call ends there, after the [cancel()]. *)
Definition speakText (enabled : bool) (reply : value) (w : World) : World :=
  if negb enabled || negb (speechSynthesis_in_window env) then w
  else
    let w := speechSynthesis_cancel w in
    match optional_DOMString eng reply with
    | Thrown _ => w
    | Normal spoken =>
        let utterance :=
          {| text := spoken; rate := 9 # 10; pitch := 1; volume := 8 # 10 |} in
        speechSynthesis_speak utterance w
    end.

(** Without the speech interface, [window.speechSynthesis.cancel()] throws
    before [setIsSpeaking] is reached. *)
Definition stopSpeaking (w : World) : World :=
  if speechSynthesis_in_window env then
    setIsSpeaking false (speechSynthesis_cancel w)
  else w.

(** [handleSubmit], up to its [await]. [now] is what [Date.now()] reads
    and [date] what [new Date()] does. *)
Definition handleSubmit_begin (now date : Z) (w : World) : World :=
  let input := input (ui w) in
  if string_falsy (trim input) then
    let w := setError validation_message w in
    setTimeout ClearError 3000 w
  else
    let userMessage :=
      {| id := Number_toString eng (inject_Z now); type := user;
         content := Str (trim input); timestamp := date |} in
    let w := setMessages (fun prev => prev ++ [userMessage]) w in
    let w := setInput [] w in
    let w := setIsLoading true w in
    let w := setError [] w in
    set_awaiting
      (awaiting w ++ [{| prompt := trim input;
                         speech_at_submit := speechEnabled (ui w) |}]) w.

(** [handleSubmit], from the point where the awaited promise settles with
    [outcome]. *)
Definition handleSubmit_settle (p : Pending) (outcome : completion value)
  (now date : Z) (w : World) : World :=
  let w :=
    match outcome with
    | Normal aiResponse =>
        let aiMessage :=
          {| id := Number_toString eng (inject_Z (now + 1)); type := ai;
             content := aiResponse; timestamp := date |} in
        let w := setMessages (fun prev => prev ++ [aiMessage]) w in
        if speech_at_submit p
        then setTimeout (Narrate (speech_at_submit p) aiResponse) 500 w
        else w
    | Thrown error =>
        let w := logged [ConsoleError [LStr (lit "Error getting AI response:");
                                       LErr error]] w in
        let w := setError failure_message w in
        setTimeout ClearError 5000 w
    end in
  setIsLoading false w.

Definition run_callback (cb : Callback) (w : World) : World :=
  match cb with
  | ClearError => setError [] w
  | Narrate enabled reply => speakText enabled reply w
  end.

(** What can happen to the page. *)
Inductive Event : Type :=
| Change (v : jsstring)
| Submit (now date : Z)
| Settle (i : nat) (net : Transport) (now date : Z)
| Fire (i : nat)
| ToggleSpeech
| StopSpeaking
| UtteranceStart
| UtteranceEnd
| UtteranceError.

(** One turn of the event loop. The call of [generateAIResponse] reads
    nothing of the component, so it is run where its promise settles. *)
Definition step (w : World) (ev : Event) : World :=
  match ev with
  | Change v => setInput v w
  | Submit now date => handleSubmit_begin now date w
  | Settle i net now date =>
      match nth_error (awaiting w) i with
      | None => w
      | Some p =>
          let (t, outcome) :=
            generateAIResponse eng (VITE_GROQ_API_KEY env) net (prompt p) in
          let w := set_awaiting (remove_nth i (awaiting w)) (logged t w) in
          handleSubmit_settle p outcome now date w
      end
  | Fire i =>
      match nth_error (timers w) i with
      | None => w
      | Some t => run_callback (callback t) (set_timers (remove_nth i (timers w)) w)
      end
  | ToggleSpeech => setSpeechEnabled (negb (speechEnabled (ui w))) w
  | StopSpeaking => stopSpeaking w
  | UtteranceStart => setIsSpeaking true w
  | UtteranceEnd | UtteranceError =>
      setIsSpeaking false (set_utterances (tl (utterances w)) w)
  end.

Definition run (w : World) (evs : list Event) : World := fold_left step evs w.

(** The page as [App] mounts it. *)
Definition initial : World :=
  {| ui := {| input := []; messages := []; isLoading := false;
              isSpeaking := false; speechEnabled := true; error := [] |};
     timers := []; awaiting := []; utterances := []; log := [] |}.

Inductive reachable : World -> Prop :=
| reachable_initial : reachable initial
| reachable_step w ev : reachable w -> reachable (step w ev).

End Component.

(** ** An engine and some networks for concrete runs *)

Module Sample.

Definition decimal (z : Z) : jsstring :=
  lit (DecimalString.NilZero.string_of_int (Z.to_int z)).

(** Integers print in decimal; other rationals as a fraction, which is
    enough to tell them apart in a run. *)
Definition number_text (q : Q) : jsstring :=
  match Qden q with
  | xH => decimal (Qnum q)
  | d => decimal (Qnum q) ++ lit "/" ++ decimal (Zpos d)
  end.

Definition quote : jsstring := [34%N].

(** A serializer without escapes. *)
Fixpoint stringify (j : json) : jsstring :=
  match j with
  | JNull => lit "null"
  | JBool true => lit "true"
  | JBool false => lit "false"
  | JNumber q => number_text q
  | JString s => quote ++ s ++ quote
  | JArray items =>
      lit "[" ++
      (fix go (l : list json) : jsstring :=
         match l with
         | [] => []
         | x :: rest =>
             stringify x ++ match rest with [] => [] | _ :: _ => lit "," ++ go rest end
         end) items
      ++ lit "]"
  | JObject fields =>
      lit "{" ++
      (fix go (l : list (jsstring * json)) : jsstring :=
         match l with
         | [] => []
         | (k, x) :: rest =>
             quote ++ k ++ quote ++ lit ":" ++ stringify x
             ++ match rest with [] => [] | _ :: _ => lit "," ++ go rest end
         end) fields
      ++ lit "}"
  end.

Definition engine : Engine :=
  {| Number_toString := number_text;
     JSON_stringify := stringify;
     cannot_read := fun v k =>
       lit "Cannot read properties of "
       ++ match v with Undefined => lit "undefined" | Val _ => lit "null" end
       ++ lit " (reading '" ++ k ++ lit "')";
     cannot_convert := lit "Cannot convert object to primitive value" |}.

Definition with_key : Env :=
  {| VITE_GROQ_API_KEY := Some (lit "gsk_test"); speechSynthesis_in_window := true |}.

Definition without_key : Env :=
  {| VITE_GROQ_API_KEY := None; speechSynthesis_in_window := true |}.

(** A 200 response whose body is [data]. *)
Definition replies (data : json) : Transport :=
  fun _ => Normal {| status := 200; statusText := lit "OK";
                     json_body := Normal data |}.

(** The body of a chat completion whose first choice has [content]. *)
Definition chat_completion (content : json) : json :=
  JObject [ (lit "choices",
             JArray [ JObject [ (lit "message",
                                 JObject [ (lit "role", JString (lit "assistant"));
                                           (lit "content", content) ]) ] ]) ].


(** A network that is down. *)
Definition offline : Transport :=
  fun _ => Thrown (mkError (lit "TypeError") (lit "Failed to fetch")).

Definition key : option jsstring := VITE_GROQ_API_KEY with_key.

Definition question : jsstring := lit "What is a black hole?".

(** The page with [s] typed into the input field. *)
Definition typed (s : string) : World := setInput (lit s) initial.

End Sample.

(** ** What counts as a failure of the completion call *)

Section ClientFailures.

Variable eng : Engine.

(** The ways the [try] block of [generateAIResponse] ends in an exception,
    each with the [Error] that reaches the [catch] block. *)
Inductive failure (key : option jsstring) (net : Transport)
  (userInput : jsstring) : JSError -> Prop :=
| fetch_rejected e :
    net (completion_request eng key userInput) = Thrown e ->
    failure key net userInput e
| body_unreadable r e :
    net (completion_request eng key userInput) = Normal r ->
    json_body r = Thrown e ->
    failure key net userInput e
| upstream_rejected r errorData m detail :
    net (completion_request eng key userInput) = Normal r ->
    ok r = false ->
    json_body r = Normal errorData ->
    snd (get_field eng (Val errorData) (lit "message")) = Normal m ->
    toString eng (or_else m (Str (JSON_stringify eng errorData)))
    = Normal detail ->
    failure key net userInput
      (mkError (lit "Error") (api_error_message eng r detail))
| upstream_unprintable r errorData m e :
    net (completion_request eng key userInput) = Normal r ->
    ok r = false ->
    json_body r = Normal errorData ->
    snd (get_field eng (Val errorData) (lit "message")) = Normal m ->
    toString eng (or_else m (Str (JSON_stringify eng errorData)))
    = Thrown e ->
    failure key net userInput e
| upstream_unreadable r errorData e :
    net (completion_request eng key userInput) = Normal r ->
    ok r = false ->
    json_body r = Normal errorData ->
    snd (get_field eng (Val errorData) (lit "message")) = Thrown e ->
    failure key net userInput e
| reply_malformed r data e :
    net (completion_request eng key userInput) = Normal r ->
    ok r = true ->
    json_body r = Normal data ->
    snd (reply_content eng data) = Thrown e ->
    failure key net userInput e.

(** The [try] block runs to its [return]: a 2xx response whose body parses
    and in which [choices[0].message.content] can be read, as [c]. *)
Definition replied (key : option jsstring) (net : Transport)
  (userInput : jsstring) (c : value) : Prop :=
  exists r data,
    net (completion_request eng key userInput) = Normal r /\
    ok r = true /\
    json_body r = Normal data /\
    snd (reply_content eng data) = Normal c.

Definition is_fetch (e : Effect) : bool :=
  match e with
  | Fetch _ => true
  | _ => false
  end.

End ClientFailures.

(** The events that belong to a submission: its dispatch and the settling
    of its call. *)
Definition submission_event (ev : Event) : bool :=
  match ev with
  | Submit _ _ | Settle _ _ _ _ => true
  | _ => false
  end.

(** The banner of the [catch] block of [handleSubmit] is not shown and no
    5000 ms timer is pending. *)
Definition no_failure_banner (w : World) : Prop :=
  error (ui w) <> failure_message /\
  forall t, In t (timers w) -> delay t <> 5000%N.

(** ** What the page renders *)

(** The main pane: the welcome text while the conversation is empty,
    otherwise the bubbles followed by the "Thinking..." indicator while
    [isLoading]. *)
Inductive Pane : Type :=
| Welcome
| Conversation (bubbles : list Message) (thinking : bool).

(** What the JSX of [App] shows and enables, as far as it depends on the
    state. *)
Record View : Type := {
  pane : Pane;
  banner : option jsstring;
  input_disabled : bool;
  submit_disabled : bool;
  speech_label : jsstring;
  stop_button : bool;
  count_label : option jsstring
}.

Section Rendering.

Variable eng : Engine.

Definition render (s : State) : View :=
  {| pane := match messages s with
             | [] => Welcome
             | _ :: _ => Conversation (messages s) (isLoading s)
             end;
     banner := if string_falsy (error s) then None else Some (error s);
     input_disabled := isLoading s;
     submit_disabled := isLoading s || string_falsy (trim (input s));
     speech_label :=
       lit "Speech " ++ (if speechEnabled s then lit "On" else lit "Off");
     stop_button := isSpeaking s;
     count_label :=
       let n := List.length (messages s) in
       if (0 <? n)%nat then
         Some (Number_toString eng (inject_Z (Z.of_nat n)) ++ lit " message"
               ++ (if (n =? 1)%nat then [] else lit "s"))
       else None |}.

Variable env : Env.

(** The events the rendered controls let through: typing needs the input
    field enabled, submitting needs the submit button enabled, and stopping
    needs the stop button on the page. Timers, settling calls and the speech
    engine's notifications are not the user's. *)
Definition permitted (w : World) (ev : Event) : bool :=
  match ev with
  | Change _ => negb (input_disabled (render (ui w)))
  | Submit _ _ => negb (submit_disabled (render (ui w)))
  | StopSpeaking => stop_button (render (ui w))
  | _ => true
  end.

(** The states the page reaches when it is driven through its controls. *)
Inductive ui_reachable : World -> Prop :=
| ui_reachable_initial : ui_reachable initial
| ui_reachable_step w ev :
    ui_reachable w -> permitted w ev = true ->
    ui_reachable (step eng env w ev).

End Rendering.

(** ** Vocabulary of the further properties *)

(** A string that does not begin with white space. *)
Definition starts_clean (s : jsstring) : bool :=
  match s with
  | [] => true
  | c :: _ => negb (is_white_space c)
  end.

(** A string with no white space at either end. *)
Definition trimmed (s : jsstring) : bool :=
  starts_clean s && starts_clean (rev s).

Definition is_console (e : Effect) : bool :=
  match e with
  | ConsoleError _ => true
  | _ => false
  end.

Definition is_speech (e : Effect) : bool :=
  match e with
  | SpeechCancel | SpeechSpeak _ => true
  | _ => false
  end.

Definition has_type (t : MessageType) (m : Message) : bool :=
  match t, type m with
  | user, user | ai, ai => true
  | _, _ => false
  end.

(** [n] completed exchanges: a user message followed by its reply, [n] times. *)
Fixpoint turns (n : nat) : list MessageType :=
  match n with
  | O => []
  | S k => user :: ai :: turns k
  end.

Definition is_clear_error (t : Timer) : bool :=
  match callback t with
  | ClearError => true
  | Narrate _ _ => false
  end.

(** ** The cases of a turn of the event loop *)

Section Transitions.

Variable eng : Engine.
Variable env : Env.

(** The utterance [speakText] builds, [spoken] being the text its argument
    converts to. *)
Definition utterance_of (spoken : jsstring) : Utterance :=
  {| text := spoken; rate := 9 # 10; pitch := 1; volume := 8 # 10 |}.

Definition userMessage_of (now date : Z) (w : World) : Message :=
  {| id := Number_toString eng (inject_Z now); type := user;
     content := Str (trim (input (ui w))); timestamp := date |}.

Definition aiMessage_of (now date : Z) (aiResponse : value) : Message :=
  {| id := Number_toString eng (inject_Z (now + 1)); type := ai;
     content := aiResponse; timestamp := date |}.

(** [step], case by case: which branch of which handler ran, and the state
    it leaves. *)
Inductive transition (w : World) : Event -> World -> Prop :=
| t_change v :
    transition w (Change v) (setInput v w)
| t_reject now date :
    string_falsy (trim (input (ui w))) = true ->
    transition w (Submit now date)
      (setTimeout ClearError 3000 (setError validation_message w))
| t_dispatch now date :
    string_falsy (trim (input (ui w))) = false ->
    transition w (Submit now date)
      (set_awaiting
         (awaiting w ++ [{| prompt := trim (input (ui w));
                            speech_at_submit := speechEnabled (ui w) |}])
         (setError [] (setIsLoading true (setInput []
            (setMessages (fun prev => prev ++ [userMessage_of now date w])
               w)))))
| t_settle_stale i net now date :
    nth_error (awaiting w) i = None ->
    transition w (Settle i net now date) w
| t_settle_spoken i p net now date v :
    nth_error (awaiting w) i = Some p ->
    snd (generateAIResponse eng (VITE_GROQ_API_KEY env) net (prompt p))
    = Normal v ->
    speech_at_submit p = true ->
    transition w (Settle i net now date)
      (setIsLoading false (setTimeout (Narrate true v) 500
         (setMessages (fun prev => prev ++ [aiMessage_of now date v])
            (set_awaiting (remove_nth i (awaiting w))
               (logged (fst (generateAIResponse eng (VITE_GROQ_API_KEY env)
                               net (prompt p))) w)))))
| t_settle_silent i p net now date v :
    nth_error (awaiting w) i = Some p ->
    snd (generateAIResponse eng (VITE_GROQ_API_KEY env) net (prompt p))
    = Normal v ->
    speech_at_submit p = false ->
    transition w (Settle i net now date)
      (setIsLoading false
         (setMessages (fun prev => prev ++ [aiMessage_of now date v])
            (set_awaiting (remove_nth i (awaiting w))
               (logged (fst (generateAIResponse eng (VITE_GROQ_API_KEY env)
                               net (prompt p))) w))))
| t_fire_stale i :
    nth_error (timers w) i = None ->
    transition w (Fire i) w
| t_fire_clear i ms :
    nth_error (timers w) i = Some {| callback := ClearError; delay := ms |} ->
    transition w (Fire i)
      (setError [] (set_timers (remove_nth i (timers w)) w))
| t_fire_mute i enabled reply ms :
    nth_error (timers w) i
    = Some {| callback := Narrate enabled reply; delay := ms |} ->
    enabled = false \/ speechSynthesis_in_window env = false ->
    transition w (Fire i) (set_timers (remove_nth i (timers w)) w)
| t_fire_narrate i reply ms spoken :
    nth_error (timers w) i
    = Some {| callback := Narrate true reply; delay := ms |} ->
    speechSynthesis_in_window env = true ->
    optional_DOMString eng reply = Normal spoken ->
    transition w (Fire i)
      (speechSynthesis_speak (utterance_of spoken)
         (speechSynthesis_cancel (set_timers (remove_nth i (timers w)) w)))
| t_fire_unspeakable i reply ms e :
    nth_error (timers w) i
    = Some {| callback := Narrate true reply; delay := ms |} ->
    speechSynthesis_in_window env = true ->
    optional_DOMString eng reply = Thrown e ->
    transition w (Fire i)
      (speechSynthesis_cancel (set_timers (remove_nth i (timers w)) w))
| t_toggle :
    transition w ToggleSpeech
      (setSpeechEnabled (negb (speechEnabled (ui w))) w)
| t_stop :
    speechSynthesis_in_window env = true ->
    transition w StopSpeaking (setIsSpeaking false (speechSynthesis_cancel w))
| t_stop_unsupported :
    speechSynthesis_in_window env = false ->
    transition w StopSpeaking w
| t_start :
    transition w UtteranceStart (setIsSpeaking true w)
| t_end :
    transition w UtteranceEnd
      (setIsSpeaking false (set_utterances (tl (utterances w)) w))
| t_error :
    transition w UtteranceError
      (setIsSpeaking false (set_utterances (tl (utterances w)) w)).

End Transitions.

(** ** Invariants of the page *)

Section Invariants.

Variable eng : Engine.
Variable env : Env.

Definition count (t : MessageType) (l : list Message) : nat :=
  List.length (filter (has_type t) l).

(** Every user message has its reply in the conversation or its call
    pending. *)
Definition balanced (w : World) : Prop :=
  count user (messages (ui w))
  = (count ai (messages (ui w)) + List.length (awaiting w))%nat.

(** User messages hold a non-empty string with no white space at its ends. *)
Definition clean_users (w : World) : Prop :=
  forall m, In m (messages (ui w)) -> type m = user ->
    exists s, content m = Str s /\ s <> [] /\ trimmed s = true.

(** A banner on the page is the validation message, with its clearing
    scheduled. *)
Definition banner_scheduled (w : World) : Prop :=
  error (ui w) <> [] ->
  error (ui w) = validation_message /\
  In {| callback := ClearError; delay := 3000 |} (timers w).

(** Pending calls and issued requests carry a non-empty trimmed prompt. *)
Definition clean_prompts (w : World) : Prop :=
  (forall p, In p (awaiting w) ->
     prompt p <> [] /\ trimmed (prompt p) = true) /\
  (forall req, In (Fetch req) (log w) ->
     key_missing (VITE_GROQ_API_KEY env) = false /\
     exists p, p <> [] /\ trimmed p = true /\
               req = completion_request eng (VITE_GROQ_API_KEY env) p).

(** What is scheduled for narration, and what has been spoken, is the
    content of an [ai] message of the conversation. *)
Definition replies_only (w : World) : Prop :=
  (forall enabled reply ms,
     In {| callback := Narrate enabled reply; delay := ms |} (timers w) ->
     enabled = true /\ ms = 500%N /\
     exists m, In m (messages (ui w)) /\ type m = ai /\ content m = reply) /\
  (forall u, In (SpeechSpeak u) (log w) ->
     exists m, In m (messages (ui w)) /\ type m = ai /\
               optional_DOMString eng (content m) = Normal (text u) /\
               u = utterance_of (text u)).

(** Without speech synthesis nothing is asked of the speech engine. *)
Definition speech_untouched (w : World) : Prop :=
  filter is_speech (log w) = [] /\ utterances w = [].

(** Driven through its controls, the page shows no banner, has at most one
    call pending, is loading exactly while one is, and its conversation is a
    sequence of completed exchanges followed by the pending question. *)
Definition orderly (w : World) : Prop :=
  error (ui w) = [] /\
  ((awaiting w = [] /\ isLoading (ui w) = false /\
    exists n, map type (messages (ui w)) = turns n) \/
   (exists p, awaiting w = [p] /\ isLoading (ui w) = true /\
    exists n, map type (messages (ui w)) = turns n ++ [user])).

End Invariants.

(** ** Scenarios for concrete runs *)

Module Scenario.

Definition answer : json := JString (lit "A region of spacetime.").

(** A 200 response with [answer] as the first choice's content. *)
Definition answers : Transport :=
  Sample.replies (Sample.chat_completion answer).

(** A 200 response whose [choices] is empty. *)
Definition no_choices : Transport :=
  Sample.replies (JObject [ (lit "choices", JArray []) ]).

(** A 502 response whose body is an HTML page. *)
Definition bad_gateway : Transport :=
  fun _ => Normal {| status := 502; statusText := lit "Bad Gateway";
                     json_body := Thrown (mkError (lit "SyntaxError")
                                     (lit "Unexpected token < in JSON")) |}.

(** A platform without the speech interface. *)
Definition mute : Env :=
  {| VITE_GROQ_API_KEY := Sample.key; speechSynthesis_in_window := false |}.

Definition asking : list Event :=
  [Change Sample.question; Submit 1000 1000].

(** A question is asked, answered, and the answer narrated. *)
Definition exchange : list Event :=
  asking ++ [Settle 0 answers 2000 2000; Fire 0].

(** Two questions asked before either is answered. *)
Definition two_pending : World :=
  run Sample.engine Sample.with_key (Sample.typed "first")
    [Submit 1 1; Change (lit "second"); Submit 2 2].

(** A question asked and answered, its narration scheduled. *)
Definition answered : World :=
  run Sample.engine Sample.with_key (Sample.typed "What is a black hole?")
    [Submit 1000 1000; Settle 0 answers 2000 2000].

(** Speech is switched off while the answer is on its way. *)
Definition toggled_off : World :=
  run Sample.engine Sample.with_key (Sample.typed "What is a black hole?")
    [Submit 1000 1000; ToggleSpeech; Settle 0 answers 2000 2000].

(** A 500 response whose payload has an object with a [toString] key as
    its [message]. *)
Definition rejects_oddly : Transport :=
  fun _ => Normal {| status := 500; statusText := lit "Internal Server Error";
                     json_body :=
                       Normal (JObject [ (lit "message",
                                 JObject [ (lit "toString", JNumber 1) ]) ]) |}.

Definition question_message : Message :=
  {| id := lit "1000"; type := user; content := Str Sample.question;
     timestamp := 1000 |}.

Definition spoken_answer : Utterance :=
  {| text := lit "A region of spacetime."; rate := 9 # 10; pitch := 1;
     volume := 8 # 10 |}.

End Scenario.

(** * Properties *)

(** ** The monad *)

Lemma snd_bind_normal A B (m : M A) (f : A -> M B) a :
  snd m = Normal a -> snd (bind m f) = snd (f a).
Proof.
  destruct m as [t r]; simpl; intros ->.
  destruct (f a); reflexivity.
Qed.

Lemma snd_bind_thrown A B (m : M A) (f : A -> M B) e :
  snd m = Thrown e -> snd (bind m f) = Thrown e.
Proof.
  destruct m as [t r]; simpl; intros ->; reflexivity.
Qed.

Lemma fst_bind_normal A B (m : M A) (f : A -> M B) a :
  snd m = Normal a -> fst (bind m f) = fst m ++ fst (f a).
Proof.
  destruct m as [t r]; simpl; intros ->.
  destruct (f a); reflexivity.
Qed.

Lemma fst_bind_thrown A B (m : M A) (f : A -> M B) e :
  snd m = Thrown e -> fst (bind m f) = fst m.
Proof.
  destruct m as [t r]; simpl; intros ->; reflexivity.
Qed.

Lemma snd_try_catch_normal A (m : M A) h a :
  snd m = Normal a -> snd (try_catch m h) = Normal a.
Proof.
  destruct m as [t r]; simpl; intros ->; reflexivity.
Qed.

Lemma snd_try_catch_thrown A (m : M A) h e :
  snd m = Thrown e -> snd (try_catch m h) = snd (h e).
Proof.
  destruct m as [t r]; simpl; intros ->.
  destruct (h e); reflexivity.
Qed.

Lemma fst_try_catch_normal A (m : M A) h a :
  snd m = Normal a -> fst (try_catch m h) = fst m.
Proof.
  destruct m as [t r]; simpl; intros ->; reflexivity.
Qed.

Lemma fst_try_catch_thrown A (m : M A) h e :
  snd m = Thrown e -> fst (try_catch m h) = fst m ++ fst (h e).
Proof.
  destruct m as [t r]; simpl; intros ->.
  destruct (h e); reflexivity.
Qed.

Lemma snd_bind A B (m : M A) (f : A -> M B) :
  snd (bind m f) = match snd m with
                   | Normal a => snd (f a)
                   | Thrown e => Thrown e
                   end.
Proof.
  destruct m as [t [a|e]]; simpl; [|reflexivity].
  destruct (f a); reflexivity.
Qed.

Lemma fst_bind A B (m : M A) (f : A -> M B) :
  fst (bind m f) = fst m ++ match snd m with
                            | Normal a => fst (f a)
                            | Thrown _ => []
                            end.
Proof.
  destruct m as [t [a|e]]; simpl; [|symmetry; apply app_nil_r].
  destruct (f a); reflexivity.
Qed.

Lemma fst_bind_nil A B (m : M A) (f : A -> M B) :
  fst m = [] -> (forall a, fst (f a) = []) -> fst (bind m f) = [].
Proof.
  destruct m as [t [a|e]]; simpl; intros -> Hf; [|reflexivity].
  specialize (Hf a). destruct (f a); simpl in *; assumption.
Qed.

(** ** The completion client *)

Section ClientProperties.

Variable eng : Engine.

(** Reading a property logs nothing. *)
Lemma fst_get_field v k : fst (get_field eng v k) = [].
Proof. destruct v as [|[]]; reflexivity. Qed.

Lemma fst_get_index0 v : fst (get_index0 eng v) = [].
Proof. destruct v as [|[]]; reflexivity. Qed.

Lemma fst_reply_content data : fst (reply_content eng data) = [].
Proof.
  unfold reply_content.
  repeat (apply fst_bind_nil; [auto using fst_get_field, fst_get_index0|intros]).
  apply fst_get_field.
Qed.

(** How the [if (!response.ok)] block ends. *)
Lemma snd_check_ok r :
  snd (check_ok eng r) =
  if ok r then Normal tt
  else match json_body r with
       | Thrown e => Thrown e
       | Normal errorData =>
           match snd (get_field eng (Val errorData) (lit "message")) with
           | Normal m =>
               match toString eng
                       (or_else m (Str (JSON_stringify eng errorData))) with
               | Normal detail =>
                   Thrown (mkError (lit "Error")
                             (api_error_message eng r detail))
               | Thrown e => Thrown e
               end
           | Thrown e => Thrown e
           end
       end.
Proof.
  unfold check_ok.
  destruct (ok r); [reflexivity|]. cbn [negb].
  rewrite snd_bind. change (snd (Response_json r)) with (json_body r).
  destruct (json_body r) as [errorData|e]; [|reflexivity].
  rewrite snd_bind. cbn [console_error emit snd]. rewrite snd_bind.
  destruct (snd (get_field eng (Val errorData) (lit "message"))) as [m|e];
    [|reflexivity].
  rewrite snd_bind. cbn [lift snd].
  destruct (toString eng (or_else m (Str (JSON_stringify eng errorData))));
    reflexivity.
Qed.

(** How the [try] block ends. *)
Lemma snd_attempt key net userInput :
  snd (attempt eng key net userInput) =
  match net (completion_request eng key userInput) with
  | Thrown e => Thrown e
  | Normal r =>
      match snd (check_ok eng r) with
      | Thrown e => Thrown e
      | Normal _ =>
          match json_body r with
          | Thrown e => Thrown e
          | Normal data => snd (reply_content eng data)
          end
      end
  end.
Proof.
  unfold attempt, fetch, Response_json, lift; simpl.
  destruct (net (completion_request eng key userInput)) as [r|e]; simpl;
    [|reflexivity].
  destruct (check_ok eng r) as [t [[]|e]]; simpl; [|reflexivity].
  destruct (json_body r) as [data|e]; simpl; [|reflexivity].
  destruct (reply_content eng data); reflexivity.
Qed.

(** The [try] block throws exactly the failures listed in [failure]. *)
Lemma attempt_thrown key net userInput e :
  snd (attempt eng key net userInput) = Thrown e <->
  failure eng key net userInput e.
Proof.
  rewrite snd_attempt. split.
  - destruct (net (completion_request eng key userInput)) as [r|e0] eqn:Hnet.
    + rewrite snd_check_ok.
      destruct (ok r) eqn:Hok.
      * destruct (json_body r) as [data|e0] eqn:Hbody.
        -- intros H. eapply reply_malformed; eauto.
        -- intros [= ->]. eapply body_unreadable; eauto.
      * destruct (json_body r) as [errorData|e0] eqn:Hbody.
        -- destruct (snd (get_field eng (Val errorData) (lit "message")))
             as [m|e0] eqn:Hm.
           ++ destruct (toString eng
                          (or_else m (Str (JSON_stringify eng errorData))))
                as [detail|e0] eqn:Hd.
              ** intros [= <-]. eapply upstream_rejected; eauto.
              ** intros [= ->]. eapply upstream_unprintable; eauto.
           ++ intros [= ->]. eapply upstream_unreadable; eauto.
        -- intros [= ->]. eapply body_unreadable; eauto.
    + intros [= ->]. apply fetch_rejected; assumption.
  - intros [e0 Hnet|r e0 Hnet Hbody|r errorData m detail Hnet Hok Hbody Hm Hd
            |r errorData m e0 Hnet Hok Hbody Hm Hd
            |r errorData e0 Hnet Hok Hbody Hm|r data e0 Hnet Hok Hbody Hc];
      rewrite Hnet; try reflexivity; rewrite snd_check_ok.
    + destruct (ok r); rewrite Hbody; reflexivity.
    + rewrite Hok, Hbody, Hm, Hd; reflexivity.
    + rewrite Hok, Hbody, Hm, Hd; reflexivity.
    + rewrite Hok, Hbody, Hm; reflexivity.
    + rewrite Hok, Hbody; assumption.
Qed.

(** The [try] block returns exactly the content read from a 2xx body. *)
Lemma attempt_normal key net userInput c :
  snd (attempt eng key net userInput) = Normal c <->
  replied eng key net userInput c.
Proof.
  rewrite snd_attempt. unfold replied. split.
  - destruct (net (completion_request eng key userInput)) as [r|e0] eqn:Hnet;
      [|discriminate].
    rewrite snd_check_ok.
    destruct (ok r) eqn:Hok.
    + destruct (json_body r) as [data|e0] eqn:Hbody; [|discriminate].
      intros H; exists r, data; auto.
    + destruct (json_body r) as [errorData|e0]; [|discriminate].
      destruct (snd (get_field eng (Val errorData) (lit "message")));
        [|discriminate].
      destruct (toString eng _); discriminate.
  - intros (r & data & Hnet & Hok & Hbody & Hc).
    rewrite Hnet, snd_check_ok, Hok, Hbody. assumption.
Qed.

(** What the [if (!response.ok)] block logs. *)
Lemma fst_check_ok r :
  fst (check_ok eng r) =
  if ok r then []
  else match json_body r with
       | Normal errorData =>
           [ConsoleError [LStr (lit "Groq API error response:");
                          LJson errorData]]
       | Thrown _ => []
       end.
Proof.
  unfold check_ok.
  destruct (ok r); [reflexivity|]. cbn [negb].
  rewrite fst_bind.
  change (snd (Response_json r)) with (json_body r).
  change (fst (Response_json r)) with (@nil Effect).
  destruct (json_body r) as [errorData|e]; [|reflexivity].
  rewrite fst_bind. cbn [console_error emit fst snd app].
  rewrite fst_bind, fst_get_field.
  destruct (snd (get_field eng (Val errorData) (lit "message"))) as [m|e];
    [|reflexivity].
  rewrite fst_bind. cbn [lift fst snd app].
  destruct (toString eng (or_else m (Str (JSON_stringify eng errorData))));
    reflexivity.
Qed.

(** What the [if (!response.ok)] block logs holds no request. *)
Lemma check_ok_no_fetch r : filter is_fetch (fst (check_ok eng r)) = [].
Proof.
  rewrite fst_check_ok. destruct (ok r); [reflexivity|].
  destruct (json_body r); reflexivity.
Qed.

(** The [try] block logs its one request first, and no other. *)
Lemma fst_attempt key net userInput :
  exists rest,
    fst (attempt eng key net userInput)
    = Fetch (completion_request eng key userInput) :: rest /\
    filter is_fetch rest = [].
Proof.
  unfold attempt, fetch, Response_json, lift; simpl.
  destruct (net (completion_request eng key userInput)) as [r|e]; simpl;
    [|exists []; auto].
  pose proof (check_ok_no_fetch r) as Hc.
  destruct (check_ok eng r) as [t [[]|e]]; simpl in *;
    [|exists t; auto].
  destruct (json_body r) as [data|e]; simpl.
  - pose proof (fst_reply_content data) as Hr.
    destruct (reply_content eng data) as [t' c]; simpl in *; subst t'.
    exists (t ++ []); rewrite app_nil_r; auto.
  - exists (t ++ []); rewrite app_nil_r; auto.
Qed.

(** The requests of one call: none without a key, one with it. *)
Lemma requests_of_generateAIResponse key net userInput :
  filter is_fetch (fst (generateAIResponse eng key net userInput)) =
  if key_missing key then []
  else [Fetch (completion_request eng key userInput)].
Proof.
  unfold generateAIResponse.
  destruct (key_missing key); [reflexivity|].
  destruct (fst_attempt key net userInput) as (rest & Hfst & Hrest).
  destruct (snd (attempt eng key net userInput)) as [c|e] eqn:Hsnd.
  - rewrite (fst_try_catch_normal _ _ Hsnd), Hfst; simpl.
    rewrite Hrest; reflexivity.
  - rewrite (fst_try_catch_thrown _ _ Hsnd), Hfst; simpl.
    rewrite filter_app, Hrest; reflexivity.
Qed.

(** The call always resolves. *)
Lemma generateAIResponse_resolves key net userInput :
  exists v, snd (generateAIResponse eng key net userInput) = Normal v.
Proof.
  unfold generateAIResponse.
  destruct (key_missing key); [eexists; reflexivity|].
  destruct (snd (attempt eng key net userInput)) as [c|e] eqn:Hsnd.
  - exists c. apply snd_try_catch_normal; assumption.
  - eexists. rewrite (snd_try_catch_thrown _ _ Hsnd). reflexivity.
Qed.

(** X21. The completion client never raises: whatever the key, the network
    and the body, [generateAIResponse] resolves. Without a key it resolves
    with the fixed reply; every failure of the call, of the parsing, of
    building the error text or of reading the reply is turned into the
    apology string that embeds the failure's message; and a 2xx body in
    which [choices[0].message.content] can be read yields that value as it
    is, unchecked. *)
Theorem generateAIResponse_never_raises (key : option jsstring)
  (net : Transport) (userInput : jsstring) :
  exists v,
    snd (generateAIResponse eng key net userInput) = Normal v /\
    (key_missing key = true -> v = Str missing_key_reply) /\
    (key_missing key = false ->
     forall e, failure eng key net userInput e ->
               v = Str (apology (message e))) /\
    (key_missing key = false ->
     forall c, replied eng key net userInput c -> v = c) /\
    (is_string v = true \/ replied eng key net userInput v).
Proof.
  unfold generateAIResponse.
  destruct (key_missing key) eqn:Hkey.
  - exists (Str missing_key_reply).
    repeat split; auto; discriminate.
  - destruct (snd (attempt eng key net userInput)) as [c|e] eqn:Hsnd.
    + exists c. rewrite (snd_try_catch_normal _ _ Hsnd).
      repeat split; try discriminate.
      * intros _ e He. apply attempt_thrown in He. congruence.
      * intros _ c' Hc'. apply attempt_normal in Hc'. congruence.
      * right. apply attempt_normal; assumption.
    + exists (Str (apology (message e))).
      rewrite (snd_try_catch_thrown _ _ Hsnd).
      repeat split; try discriminate; auto.
      * intros _ e' He'. apply attempt_thrown in He'. congruence.
      * intros _ c Hc. apply attempt_normal in Hc. congruence.
Qed.




End ClientProperties.

(** ** The component *)

Lemma In_remove_nth A (x : A) i l : In x (remove_nth i l) -> In x l.
Proof.
  revert i; induction l as [|y l IH]; intros [|i]; simpl; auto.
  intros [->|H]; eauto.
Qed.

Lemma nth_error_snoc A (l : list A) x :
  nth_error (l ++ [x]) (List.length l) = Some x.
Proof.
  rewrite nth_error_app2 by lia. rewrite Nat.sub_diag. reflexivity.
Qed.

Lemma remove_nth_snoc A (l : list A) x :
  remove_nth (List.length l) (l ++ [x]) = l.
Proof.
  induction l as [|y l IH]; simpl; [reflexivity|]. rewrite IH; reflexivity.
Qed.

Lemma failure_message_distinct :
  validation_message <> failure_message /\ [] <> failure_message.
Proof. split; intros H; vm_compute in H; discriminate. Qed.

Section ComponentProperties.

Variable eng : Engine.
Variable env : Env.

Local Abbreviation step := (step eng env).
Local Abbreviation run := (run eng env).

(** [speakText] touches the speech engine and the log only. *)
Lemma speakText_frame enabled reply w :
  ui (speakText eng env enabled reply w) = ui w /\
  timers (speakText eng env enabled reply w) = timers w /\
  awaiting (speakText eng env enabled reply w) = awaiting w.
Proof.
  unfold speakText.
  destruct (negb enabled || negb (speechSynthesis_in_window env));
    [repeat split|].
  destruct (optional_DOMString eng reply); repeat split.
Qed.

(** Settling a call whose result is [outcome]. *)
Lemma step_settle w i p net now date :
  nth_error (awaiting w) i = Some p ->
  step w (Settle i net now date) =
  handleSubmit_settle eng p
    (snd (generateAIResponse eng (VITE_GROQ_API_KEY env) net (prompt p)))
    now date
    (set_awaiting (remove_nth i (awaiting w))
       (logged (fst (generateAIResponse eng (VITE_GROQ_API_KEY env) net
                       (prompt p))) w)).
Proof.
  intros H. simpl. rewrite H.
  destruct (generateAIResponse eng (VITE_GROQ_API_KEY env) net (prompt p));
    reflexivity.
Qed.

(** One event leaves the conversation as it is or adds one message at its end. *)
Lemma step_appends w ev :
  messages (ui (step w ev)) = messages (ui w) \/
  exists m, messages (ui (step w ev)) = messages (ui w) ++ [m].
Proof.
  destruct ev as [v|now date|i net now date|i| | | | | ]; simpl; auto.
  - unfold handleSubmit_begin.
    destruct (string_falsy (trim (input (ui w)))); simpl; eauto.
  - destruct (nth_error (awaiting w) i) as [p|]; auto.
    destruct (generateAIResponse eng (VITE_GROQ_API_KEY env) net (prompt p))
      as [t [v|e]]; simpl; auto.
    destruct (speech_at_submit p); simpl; eauto.
  - destruct (nth_error (timers w) i) as [[[|enabled reply] ms]|]; simpl; auto.
    destruct (speakText_frame enabled reply
                (set_timers (remove_nth i (timers w)) w)) as (-> & _).
    auto.
  - unfold stopSpeaking.
    destruct (speechSynthesis_in_window env); auto.
Qed.

(** Events other than a dispatch or a settling leave the conversation and
    the pending calls alone. *)
Lemma step_between w ev :
  submission_event ev = false ->
  messages (ui (step w ev)) = messages (ui w) /\
  awaiting (step w ev) = awaiting w.
Proof.
  destruct ev as [v|now date|i net now date|i| | | | | ];
    simpl; try discriminate; intros _; auto.
  - destruct (nth_error (timers w) i) as [[[|enabled reply] ms]|]; simpl; auto.
    destruct (speakText_frame enabled reply
                (set_timers (remove_nth i (timers w)) w)) as (-> & _ & ->).
    auto.
  - unfold stopSpeaking.
    destruct (speechSynthesis_in_window env); auto.
Qed.

Lemma run_between w evs :
  Forall (fun ev => submission_event ev = false) evs ->
  messages (ui (run w evs)) = messages (ui w) /\
  awaiting (run w evs) = awaiting w.
Proof.
  intros H; revert w; induction H as [|ev evs Hev _ IH]; intros w; simpl; auto.
  destruct (IH (step w ev)) as [-> ->].
  apply step_between; assumption.
Qed.

Lemma run_app w evs evs' : run w (evs ++ evs') = run (run w evs) evs'.
Proof. apply fold_left_app. Qed.

Lemma run_appends w evs :
  exists added, messages (ui (run w evs)) = messages (ui w) ++ added.
Proof.
  revert w; induction evs as [|ev evs IH]; intros w; simpl.
  - exists []. rewrite app_nil_r; reflexivity.
  - destruct (IH (step w ev)) as [added ->].
    destruct (step_appends w ev) as [->|[m ->]].
    + exists added; reflexivity.
    + exists (m :: added). rewrite <- app_assoc; reflexivity.
Qed.

(** C1. With an input that is not empty once trimmed, dispatching the
    submission appends the user message, holding the trimmed input, while the
    call is still pending; whatever else happens in between (other than
    another dispatch or settling), the settling of the call then appends one
    [ai] message holding what the client returned. The conversation has
    grown by exactly these two messages, in this order. *)
Theorem round_trip_appends_two (w : World) (now date : Z) (evs : list Event)
  (net : Transport) (now' date' : Z) :
  string_falsy (trim (input (ui w))) = false ->
  Forall (fun ev => submission_event ev = false) evs ->
  let w1 := step w (Submit now date) in
  let w2 := run w1 evs in
  let w3 := step w2 (Settle (List.length (awaiting w)) net now' date') in
  let userMessage :=
    {| id := Number_toString eng (inject_Z now); type := user;
       content := Str (trim (input (ui w))); timestamp := date |} in
  exists aiMessage,
    messages (ui w1) = messages (ui w) ++ [userMessage] /\
    nth_error (awaiting w1) (List.length (awaiting w))
    = Some {| prompt := trim (input (ui w));
              speech_at_submit := speechEnabled (ui w) |} /\
    messages (ui w2) = messages (ui w) ++ [userMessage] /\
    messages (ui w3) = messages (ui w) ++ [userMessage; aiMessage] /\
    type aiMessage = ai /\
    snd (generateAIResponse eng (VITE_GROQ_API_KEY env) net
           (trim (input (ui w)))) = Normal (content aiMessage) /\
    List.length (messages (ui w3)) = (List.length (messages (ui w)) + 2)%nat.
Proof.
  intros Hin Hevs w1 w2 w3 userMessage.
  assert (Hm1 : messages (ui w1) = messages (ui w) ++ [userMessage]).
  { subst w1; simpl; unfold handleSubmit_begin; rewrite Hin; reflexivity. }
  assert (Ha1 : awaiting w1
                = awaiting w ++ [{| prompt := trim (input (ui w));
                                    speech_at_submit := speechEnabled (ui w) |}]).
  { subst w1; simpl; unfold handleSubmit_begin; rewrite Hin; reflexivity. }
  destruct (run_between w1 Hevs) as [Hm2 Ha2]. fold w2 in Hm2, Ha2.
  assert (Hp : nth_error (awaiting w2) (List.length (awaiting w))
               = Some {| prompt := trim (input (ui w));
                         speech_at_submit := speechEnabled (ui w) |}).
  { rewrite Ha2, Ha1. apply nth_error_snoc. }
  destruct (generateAIResponse_resolves eng (VITE_GROQ_API_KEY env) net
              (trim (input (ui w)))) as [v Hv].
  exists {| id := Number_toString eng (inject_Z (now' + 1)); type := ai;
            content := v; timestamp := date' |}.
  assert (Hm3 : messages (ui w3)
                = messages (ui w2)
                  ++ [{| id := Number_toString eng (inject_Z (now' + 1));
                         type := ai; content := v; timestamp := date' |}]).
  { subst w3. rewrite (step_settle _ _ _ _ _ Hp). simpl prompt. rewrite Hv.
    simpl. destruct (speechEnabled (ui w)); reflexivity. }
  repeat split; auto.
  - rewrite Ha1. apply nth_error_snoc.
  - rewrite Hm2, Hm1; reflexivity.
  - rewrite Hm3, Hm2, Hm1, <- app_assoc; reflexivity.
  - rewrite Hm3, Hm2, Hm1, !length_app; simpl; lia.
Qed.

(** C2. With an input that is empty once trimmed, a submission changes
    neither the conversation nor the input field, starts no completion call
    and makes no platform call; it sets the validation message and schedules
    its clearing 3000 ms later, and that timer, when it fires, clears it. *)
Theorem empty_submission_rejected (w : World) (now date : Z) :
  string_falsy (trim (input (ui w))) = true ->
  let w' := step w (Submit now date) in
  messages (ui w') = messages (ui w) /\
  input (ui w') = input (ui w) /\
  isLoading (ui w') = isLoading (ui w) /\
  awaiting w' = awaiting w /\
  log w' = log w /\
  utterances w' = utterances w /\
  error (ui w') = lit "Please enter a question or command" /\
  timers w' = timers w ++ [{| callback := ClearError; delay := 3000 |}] /\
  error (ui (step w' (Fire (List.length (timers w))))) = [] /\
  messages (ui (step w' (Fire (List.length (timers w))))) = messages (ui w).
Proof.
  intros Hin w'.
  assert (Hw' : w' = setTimeout ClearError 3000 (setError validation_message w)).
  { subst w'; simpl; unfold handleSubmit_begin; rewrite Hin; reflexivity. }
  rewrite Hw'. repeat split.
  - simpl. rewrite nth_error_snoc. reflexivity.
  - simpl. rewrite nth_error_snoc. reflexivity.
Qed.

(** C5. Without an API key, the client returns the fixed reply after one
    [console.error] and no request, and the settling of the submission
    appends that string, as it is, as the [ai] message. *)
Theorem missing_key_reply_appended (w : World) (i : nat) (p : Pending)
  (net : Transport) (now date : Z) :
  key_missing (VITE_GROQ_API_KEY env) = true ->
  nth_error (awaiting w) i = Some p ->
  let w' := step w (Settle i net now date) in
  snd (generateAIResponse eng (VITE_GROQ_API_KEY env) net (prompt p))
  = Normal (Str (lit "I'm sorry, I cannot connect to the AI service. Please ensure the API key is configured correctly.")) /\
  filter is_fetch
    (fst (generateAIResponse eng (VITE_GROQ_API_KEY env) net (prompt p))) = [] /\
  filter is_fetch (log w') = filter is_fetch (log w) /\
  messages (ui w')
  = messages (ui w)
    ++ [{| id := Number_toString eng (inject_Z (now + 1)); type := ai;
           content := Str missing_key_reply; timestamp := date |}].
Proof.
  intros Hkey Hp w'. subst w'. rewrite (step_settle _ _ _ _ _ Hp).
  unfold generateAIResponse. rewrite Hkey. simpl.
  repeat split.
  - destruct (speech_at_submit p); simpl; rewrite filter_app; simpl;
      apply app_nil_r.
  - destruct (speech_at_submit p); reflexivity.
Qed.

(** What [speakText] does, by the flag it closed over: nothing at all when
    that flag is off or the page has no speech synthesis; otherwise it
    cancels whatever the engine holds and, if its argument converts to a
    text, hands the engine exactly one utterance of that text with rate 0.9,
    pitch 1 and volume 0.8, which is then the only one queued. The
    component's own state is untouched. *)
Lemma speakText_cases (enabled : bool) (reply : value) (w : World) :
  (enabled = false \/ speechSynthesis_in_window env = false ->
   speakText eng env enabled reply w = w) /\
  (enabled = true -> speechSynthesis_in_window env = true ->
   forall spoken, optional_DOMString eng reply = Normal spoken ->
   let u := {| text := spoken; rate := 9 # 10; pitch := 1;
               volume := 8 # 10 |} in
   log (speakText eng env enabled reply w)
   = log w ++ [SpeechCancel; SpeechSpeak u] /\
   utterances (speakText eng env enabled reply w) = [u]) /\
  (enabled = true -> speechSynthesis_in_window env = true ->
   forall e, optional_DOMString eng reply = Thrown e ->
   log (speakText eng env enabled reply w) = log w ++ [SpeechCancel] /\
   utterances (speakText eng env enabled reply w) = []).
Proof.
  unfold speakText. split; [|split].
  - intros [-> | ->]; [reflexivity|].
    rewrite orb_true_r; reflexivity.
  - intros -> -> spoken ->. simpl. rewrite <- app_assoc. split; reflexivity.
  - intros -> -> e ->. split; reflexivity.
Qed.

(** C7. A submission whose input is not empty once trimmed sets
    [isLoading] when it is dispatched, and the flag is false once the
    settling has been handled, whether the awaited call returned a value or
    threw, in any state the page is in by then. *)
Theorem loading_flag_returns_to_idle (w : World) (now date : Z)
  (p : Pending) (outcome : completion value) (now' date' : Z) (w' : World)
  (i : nat) (net : Transport) :
  string_falsy (trim (input (ui w))) = false ->
  nth_error (awaiting w') i = Some p ->
  isLoading (ui (step w (Submit now date))) = true /\
  isLoading (ui (handleSubmit_settle eng p outcome now' date' w')) = false /\
  isLoading (ui (step w' (Settle i net now' date'))) = false.
Proof.
  intros Hin Hp.
  assert (Hsettle : forall c w0,
            isLoading (ui (handleSubmit_settle eng p c now' date' w0)) = false).
  { intros [v|e] w0; simpl; [|reflexivity].
    destruct (speech_at_submit p); reflexivity. }
  split; [|split].
  - simpl; unfold handleSubmit_begin; rewrite Hin; reflexivity.
  - apply Hsettle.
  - rewrite (step_settle _ _ _ _ _ Hp). apply Hsettle.
Qed.

(** C8. The conversation only grows at its end: one event leaves it
    unchanged or appends a single message, so after any run of events the
    earlier conversation is a prefix of the later one and the messages keep
    the order in which they were added. *)
Theorem conversation_append_only (w : World) :
  (forall ev,
     messages (ui (step w ev)) = messages (ui w) \/
     exists m, messages (ui (step w ev)) = messages (ui w) ++ [m]) /\
  (forall evs evs',
     exists added,
       messages (ui (run w (evs ++ evs')))
       = messages (ui (run w evs)) ++ added).
Proof.
  split.
  - apply step_appends.
  - intros evs evs'. rewrite run_app. apply run_appends.
Qed.

Lemma no_failure_banner_step w ev :
  no_failure_banner w -> no_failure_banner (step w ev).
Proof.
  destruct failure_message_distinct as [Hv He].
  intros [Herr Htim].
  assert (Hsnoc : forall cb ms t, ms <> 5000%N ->
            In t (timers w ++ [{| callback := cb; delay := ms |}]) ->
            delay t <> 5000%N).
  { intros cb ms t Hms Hin. apply in_app_or in Hin.
    destruct Hin as [Hin|[<-|[]]]; auto. }
  destruct ev as [v|now date|i net now date|i| | | | | ].
  - split; assumption.
  - simpl; unfold handleSubmit_begin.
    destruct (string_falsy (trim (input (ui w)))); split; simpl; auto.
    intros t Hin; eapply Hsnoc; [|exact Hin]; discriminate.
  - destruct (nth_error (awaiting w) i) as [p|] eqn:Hp;
      [|simpl; rewrite Hp; split; assumption].
    rewrite (step_settle _ _ _ _ _ Hp).
    destruct (generateAIResponse_resolves eng (VITE_GROQ_API_KEY env) net
                (prompt p)) as [v ->].
    unfold no_failure_banner, handleSubmit_settle.
    destruct (speech_at_submit p); split; simpl; auto.
    intros t Hin; eapply Hsnoc; [|exact Hin]; discriminate.
  - simpl. destruct (nth_error (timers w) i) as [[cb ms]|] eqn:Ht;
      [|split; assumption].
    assert (Hrem : forall t, In t (remove_nth i (timers w)) ->
                             delay t <> 5000%N)
      by (intros t Hin; apply Htim; eapply In_remove_nth; eassumption).
    destruct cb as [|enabled reply]; simpl.
    + split; simpl; auto.
    + destruct (speakText_frame enabled reply
                  (set_timers (remove_nth i (timers w)) w)) as (Hu & Ht' & _).
      unfold no_failure_banner. rewrite Hu, Ht'. split; simpl; auto.
  - split; assumption.
  - simpl; unfold stopSpeaking.
    destruct (speechSynthesis_in_window env); split; assumption.
  - split; assumption.
  - split; assumption.
  - split; assumption.
Qed.

(** C10. The [catch] branch of [handleSubmit] is dead code: the awaited
    call never throws, so in every state the page can reach the error
    banner is not "Failed to get response. Please try again." and no timer
    of 5000 ms is pending. *)
Theorem hard_failure_unreachable :
  (forall net userInput e,
     snd (generateAIResponse eng (VITE_GROQ_API_KEY env) net userInput)
     <> Thrown e) /\
  (forall w, reachable eng env w ->
     error (ui w) <> lit "Failed to get response. Please try again." /\
     forall t, In t (timers w) -> delay t <> 5000%N).
Proof.
  split.
  - intros net userInput e.
    destruct (generateAIResponse_resolves eng (VITE_GROQ_API_KEY env) net
                userInput) as [v ->].
    discriminate.
  - intros w H. change (no_failure_banner w).
    induction H as [|w ev _ IH].
    + split; [apply failure_message_distinct|intros t []].
    + apply no_failure_banner_step; assumption.
Qed.

End ComponentProperties.

(** * Further properties *)

Unset Implicit Arguments.

(** ** Trimming *)

Lemma starts_clean_trimStart s : starts_clean (trimStart s) = true.
Proof.
  induction s as [|c r IH]; simpl; [reflexivity|].
  destruct (is_white_space c) eqn:Hc; [assumption|].
  simpl. rewrite Hc. reflexivity.
Qed.

Lemma trimStart_fixed s : starts_clean s = true -> trimStart s = s.
Proof.
  destruct s as [|c r]; simpl; [reflexivity|].
  destruct (is_white_space c); [discriminate|reflexivity].
Qed.

Lemma trimStart_snoc l c :
  is_white_space c = false -> trimStart (l ++ [c]) = trimStart l ++ [c].
Proof.
  intros Hc. induction l as [|a l IH]; simpl.
  - rewrite Hc. reflexivity.
  - destruct (is_white_space a); [assumption|reflexivity].
Qed.

Lemma trimEnd_cons c r :
  is_white_space c = false -> trimEnd (c :: r) = c :: trimEnd r.
Proof.
  intros Hc. unfold trimEnd. simpl rev.
  rewrite (trimStart_snoc _ _ Hc), rev_app_distr. reflexivity.
Qed.

Lemma starts_clean_trimEnd s :
  starts_clean s = true -> starts_clean (trimEnd s) = true.
Proof.
  destruct s as [|c r]; [reflexivity|]. simpl.
  destruct (is_white_space c) eqn:Hc; [discriminate|]. intros _.
  rewrite (trimEnd_cons _ _ Hc). simpl. rewrite Hc. reflexivity.
Qed.

Lemma trimmed_trim s : trimmed (trim s) = true.
Proof.
  unfold trimmed, trim. apply andb_true_intro. split.
  - apply starts_clean_trimEnd, starts_clean_trimStart.
  - unfold trimEnd. rewrite rev_involutive. apply starts_clean_trimStart.
Qed.

Lemma trim_fixed s : trimmed s = true -> trim s = s.
Proof.
  unfold trimmed, trim. intros H. apply andb_prop in H as [H1 H2].
  rewrite (trimStart_fixed _ H1). unfold trimEnd.
  rewrite (trimStart_fixed _ H2). apply rev_involutive.
Qed.

(** ** The trace of a completion call *)

Section ClientTrace.

Variable eng : Engine.

(** What the [try] block logs: the request, then the error payload of a
    non-2xx response whose body parses. *)
Lemma fst_attempt_exact key net userInput :
  fst (attempt eng key net userInput) =
  Fetch (completion_request eng key userInput)
  :: match net (completion_request eng key userInput) with
     | Normal r => fst (check_ok eng r)
     | Thrown _ => []
     end.
Proof.
  unfold attempt, fetch, Response_json, lift; simpl.
  destruct (net (completion_request eng key userInput)) as [r|e]; simpl;
    [|reflexivity].
  destruct (check_ok eng r) as [t [[]|e]]; simpl; [|reflexivity].
  destruct (json_body r) as [data|e]; simpl.
  - pose proof (fst_reply_content eng data) as Hr.
    destruct (reply_content eng data) as [t' c]; simpl in *; subst t'.
    rewrite !app_nil_r. reflexivity.
  - rewrite !app_nil_r. reflexivity.
Qed.

(** The whole trace of a call. *)
Lemma fst_generateAIResponse key net userInput :
  fst (generateAIResponse eng key net userInput) =
  if key_missing key then
    [ConsoleError [LStr (lit "GROQ_API_KEY is not set in environment variables.")]]
  else
    fst (attempt eng key net userInput)
    ++ match snd (attempt eng key net userInput) with
       | Normal _ => []
       | Thrown e => [ConsoleError [LStr (lit "Error calling Groq API:");
                                    LErr e]]
       end.
Proof.
  unfold generateAIResponse.
  destruct (key_missing key); [reflexivity|].
  destruct (snd (attempt eng key net userInput)) as [c|e] eqn:Hsnd.
  - rewrite (fst_try_catch_normal _ _ Hsnd), app_nil_r. reflexivity.
  - rewrite (fst_try_catch_thrown _ _ Hsnd). reflexivity.
Qed.

(** A call makes no speech call. *)
Lemma generateAIResponse_no_speech key net userInput :
  filter is_speech (fst (generateAIResponse eng key net userInput)) = [].
Proof.
  rewrite fst_generateAIResponse.
  destruct (key_missing key); [reflexivity|].
  rewrite filter_app, fst_attempt_exact. simpl.
  assert (H : filter is_speech
                match net (completion_request eng key userInput) with
                | Normal r => fst (check_ok eng r)
                | Thrown _ => []
                end = []).
  { destruct (net (completion_request eng key userInput)) as [r|e];
      [|reflexivity].
    rewrite fst_check_ok. destruct (ok r); [reflexivity|].
    destruct (json_body r); reflexivity. }
  rewrite H. destruct (snd (attempt eng key net userInput)); reflexivity.
Qed.

End ClientTrace.

(** ** The cases of [step] *)

Section StepCases.

Variable eng : Engine.
Variable env : Env.

(** [step] takes the transition its case analysis names. *)
Lemma step_transition w ev : transition eng env w ev (step eng env w ev).
Proof.
  destruct ev as [v|now date|i net now date|i| | | | | ]; simpl;
    try (constructor; fail).
  - unfold handleSubmit_begin.
    destruct (string_falsy (trim (input (ui w)))) eqn:Hin.
    + apply t_reject; assumption.
    + apply t_dispatch; assumption.
  - destruct (nth_error (awaiting w) i) as [p|] eqn:Hp.
    + destruct (generateAIResponse_resolves eng (VITE_GROQ_API_KEY env) net
                  (prompt p)) as [v Hv].
      pose proof (@step_settle eng env w i p net now date Hp) as Hs.
      simpl in Hs. rewrite Hp in Hs. rewrite Hs, Hv.
      unfold handleSubmit_settle.
      destruct (speech_at_submit p) eqn:Hsp.
      * eapply t_settle_spoken; eassumption.
      * eapply t_settle_silent; eassumption.
    + apply t_settle_stale; assumption.
  - destruct (nth_error (timers w) i) as [[[|enabled reply] ms]|] eqn:Ht;
      simpl.
    + eapply t_fire_clear; eassumption.
    + unfold speakText.
      destruct enabled; simpl.
      * destruct (speechSynthesis_in_window env) eqn:Hs; simpl.
        -- destruct (optional_DOMString eng reply) as [spoken|e] eqn:Hd.
           ++ eapply t_fire_narrate; eassumption.
           ++ eapply t_fire_unspeakable; eassumption.
        -- eapply t_fire_mute; [eassumption|auto].
      * eapply t_fire_mute; [eassumption|auto].
    + apply t_fire_stale; assumption.
  - unfold stopSpeaking.
    destruct (speechSynthesis_in_window env) eqn:Hs.
    + apply t_stop; assumption.
    + apply t_stop_unsupported; assumption.
Qed.

End StepCases.

(** ** Lists *)

Lemma length_remove_nth A (l : list A) i x :
  nth_error l i = Some x -> S (List.length (remove_nth i l)) = List.length l.
Proof.
  revert i; induction l as [|y l IH]; intros [|i]; simpl; try discriminate.
  - reflexivity.
  - intros H. rewrite (IH _ H). reflexivity.
Qed.

Lemma In_remove_nth_other A (l : list A) i x y :
  In x l -> nth_error l i = Some y -> x <> y -> In x (remove_nth i l).
Proof.
  revert i; induction l as [|z l IH]; intros [|i]; simpl; try contradiction.
  - intros [->|H] [= ->] Hne; [contradiction|assumption].
  - intros [->|H] Hn Hne; [left; reflexivity|right; eauto].
Qed.

Lemma turns_snoc n : turns n ++ [user; ai] = turns (S n).
Proof.
  induction n as [|n IH]; [reflexivity|].
  change (turns (S n)) with (user :: ai :: turns n).
  simpl app. rewrite IH. reflexivity.
Qed.

Lemma not_falsy_nonempty s : string_falsy s = false -> s <> [].
Proof. destruct s; [discriminate|intros _ H; discriminate]. Qed.

(** ** Invariants *)

Ltac step_cases eng env w ev :=
  let T := fresh "T" in
  let w' := fresh "w'" in
  let E := fresh "E" in
  pose proof (step_transition eng env w ev) as T;
  remember (step eng env w ev) as w' eqn:E; clear E;
  destruct T.

Section InvariantProofs.

Variable eng : Engine.
Variable env : Env.

Lemma balanced_step w ev : balanced w -> balanced (step eng env w ev).
Proof.
  unfold balanced, count. intros H.
  step_cases eng env w ev; simpl; auto;
    rewrite !filter_app, !length_app; simpl;
    try match goal with
        | Hp : nth_error (awaiting w) _ = Some _ |- _ =>
            pose proof (length_remove_nth _ _ _ _ Hp)
        end; lia.
Qed.

Lemma clean_users_step w ev : clean_users w -> clean_users (step eng env w ev).
Proof.
  unfold clean_users. intros H.
  step_cases eng env w ev; simpl; auto;
    intros m Hin Hty; apply in_app_or in Hin;
    destruct Hin as [Hin|[<-|[]]]; auto; try discriminate.
  exists (trim (input (ui w))). repeat split.
  - apply not_falsy_nonempty; assumption.
  - apply trimmed_trim.
Qed.

Lemma loading_step w ev :
  (isLoading (ui w) = true -> messages (ui w) <> []) ->
  isLoading (ui (step eng env w ev)) = true ->
  messages (ui (step eng env w ev)) <> [].
Proof.
  intros H.
  step_cases eng env w ev; simpl; auto; try discriminate.
  intros _ Habs. apply app_eq_nil in Habs. destruct Habs; discriminate.
Qed.

Lemma banner_scheduled_step w ev :
  banner_scheduled w -> banner_scheduled (step eng env w ev).
Proof.
  unfold banner_scheduled. intros H.
  step_cases eng env w ev; simpl; auto; try (intros Habs; contradiction).
  - intros _. split; [reflexivity|]. apply in_or_app. right. left. reflexivity.
  - intros Hne. destruct (H Hne) as [He Hin]. split; [assumption|].
    apply in_or_app. left. assumption.
  - intros Hne. destruct (H Hne) as [He Hin]. split; [assumption|].
    eapply In_remove_nth_other; [eassumption|eassumption|discriminate].
  - intros Hne. destruct (H Hne) as [He Hin]. split; [assumption|].
    eapply In_remove_nth_other; [eassumption|eassumption|discriminate].
  - intros Hne. destruct (H Hne) as [He Hin]. split; [assumption|].
    eapply In_remove_nth_other; [eassumption|eassumption|discriminate].
Qed.

Lemma clean_prompts_step w ev :
  clean_prompts eng env w -> clean_prompts eng env (step eng env w ev).
Proof.
  unfold clean_prompts. intros [Hp Hr].
  assert (Hsettle : forall i p net req,
            nth_error (awaiting w) i = Some p ->
            In (Fetch req)
               (log w ++ fst (generateAIResponse eng (VITE_GROQ_API_KEY env)
                                net (prompt p))) ->
            key_missing (VITE_GROQ_API_KEY env) = false /\
            exists q, q <> [] /\ trimmed q = true /\
                      req = completion_request eng (VITE_GROQ_API_KEY env) q).
  { intros i p net req Hi Hin. apply in_app_or in Hin.
    destruct Hin as [Hin|Hin]; [auto|].
    assert (Hf : In (Fetch req)
                   (filter is_fetch
                      (fst (generateAIResponse eng (VITE_GROQ_API_KEY env)
                              net (prompt p)))))
      by (apply filter_In; split; auto).
    rewrite requests_of_generateAIResponse in Hf.
    destruct (key_missing (VITE_GROQ_API_KEY env)); [contradiction|].
    destruct Hf as [[= <-]|[]]. split; [reflexivity|].
    destruct (Hp p (nth_error_In _ _ Hi)) as [Hne Htr].
    exists (prompt p). auto. }
  assert (Hrem : forall i p, In p (remove_nth i (awaiting w)) ->
            prompt p <> [] /\ trimmed (prompt p) = true)
    by (intros i p Hin; apply Hp; eapply In_remove_nth; eassumption).
  assert (Hspeech : forall req (t : list Effect),
            filter is_fetch t = [] -> In (Fetch req) (log w ++ t) ->
            In (Fetch req) (log w)).
  { intros req t Ht Hin. apply in_app_or in Hin. destruct Hin as [Hin|Hin];
      [assumption|].
    assert (Hf : In (Fetch req) (filter is_fetch t))
      by (apply filter_In; split; auto).
    rewrite Ht in Hf. contradiction. }
  step_cases eng env w ev; simpl; auto.
  - split; [|assumption].
    intros p Hin. apply in_app_or in Hin. destruct Hin as [Hin|[<-|[]]]; auto.
    simpl. split; [apply not_falsy_nonempty; assumption|apply trimmed_trim].
  - split; [apply Hrem|]. intros req Hin. eapply Hsettle; eassumption.
  - split; [apply Hrem|]. intros req Hin. eapply Hsettle; eassumption.
  - split; [assumption|]. intros req Hin. apply Hr.
    rewrite <- app_assoc in Hin. eapply Hspeech; [|exact Hin]. reflexivity.
  - split; [assumption|]. intros req Hin. apply Hr.
    eapply Hspeech; [|exact Hin]. reflexivity.
  - split; [assumption|]. intros req Hin. apply Hr.
    eapply Hspeech; [|exact Hin]. reflexivity.
Qed.

Lemma queue_step w ev :
  (List.length (utterances w) <= 1)%nat ->
  (List.length (utterances (step eng env w ev)) <= 1)%nat.
Proof.
  intros H.
  step_cases eng env w ev; simpl; auto;
    destruct (utterances w) as [|u [|u' l]]; simpl in *; lia.
Qed.

Lemma speech_untouched_step w ev :
  speechSynthesis_in_window env = false ->
  speech_untouched w -> speech_untouched (step eng env w ev).
Proof.
  unfold speech_untouched. intros Hno [Hl Hu].
  step_cases eng env w ev; simpl; auto; try congruence.
  - split; [|assumption].
    rewrite filter_app, Hl, generateAIResponse_no_speech. reflexivity.
  - split; [|assumption].
    rewrite filter_app, Hl, generateAIResponse_no_speech. reflexivity.
  - rewrite Hu. auto.
  - rewrite Hu. auto.
Qed.

Lemma replies_only_step w ev :
  replies_only eng w -> replies_only eng (step eng env w ev).
Proof.
  unfold replies_only. intros [Ht Hl].
  assert (Hgrow : forall x (P : Message -> Prop),
            (exists m, In m (messages (ui w)) /\ P m) ->
            exists m, In m (messages (ui w) ++ [x]) /\ P m).
  { intros x P (m & Hin & HP). exists m. split; [|assumption].
    apply in_or_app. left. assumption. }
  assert (Hrem : forall i enabled reply ms,
            In {| callback := Narrate enabled reply; delay := ms |}
               (remove_nth i (timers w)) ->
            enabled = true /\ ms = 500%N /\
            exists m, In m (messages (ui w)) /\ type m = ai /\
                      content m = reply)
    by (intros i enabled reply ms Hin; eapply Ht, In_remove_nth; eassumption).
  assert (Hclient : forall u net q (t := fst (generateAIResponse eng
                                     (VITE_GROQ_API_KEY env) net q)),
            In (SpeechSpeak u) (log w ++ t) -> In (SpeechSpeak u) (log w)).
  { intros u net q t Hin. apply in_app_or in Hin.
    destruct Hin as [Hin|Hin]; [assumption|].
    assert (Hf : In (SpeechSpeak u) (filter is_speech t))
      by (apply filter_In; split; auto).
    unfold t in Hf. rewrite generateAIResponse_no_speech in Hf.
    contradiction. }
  step_cases eng env w ev; simpl; auto.
  - (* the validation timer *)
    split; [|assumption]. intros enabled reply ms Hin.
    apply in_app_or in Hin. destruct Hin as [Hin|[Heq|[]]]; [eauto|].
    discriminate.
  - (* dispatch *)
    split.
    + intros enabled reply ms Hin.
      destruct (Ht _ _ _ Hin) as (-> & -> & Hm).
      repeat split. apply (Hgrow _ (fun m => type m = ai /\ content m = reply)).
      assumption.
    + intros u Hin. apply (Hgrow _ (fun m => type m = ai /\ _)). auto.
  - (* a reply to be narrated *)
    split.
    + intros enabled reply ms Hin. apply in_app_or in Hin.
      destruct Hin as [Hin|[[= <- <- <-]|[]]].
      * destruct (Ht _ _ _ Hin) as (-> & -> & Hm).
        repeat split.
        apply (Hgrow _ (fun m => type m = ai /\ content m = reply)).
        assumption.
      * repeat split. exists (aiMessage_of eng now date v).
        split; [apply in_or_app; right; left; reflexivity|auto].
    + intros u Hin. apply Hclient in Hin.
      apply (Hgrow _ (fun m => type m = ai /\ _)). auto.
  - (* a reply not narrated *)
    split.
    + intros enabled reply ms Hin.
      destruct (Ht _ _ _ Hin) as (-> & -> & Hm).
      repeat split.
      apply (Hgrow _ (fun m => type m = ai /\ content m = reply)).
      assumption.
    + intros u Hin. apply Hclient in Hin.
      apply (Hgrow _ (fun m => type m = ai /\ _)). auto.
  - split; [apply Hrem|assumption].
  - split; [apply Hrem|assumption].
  - (* narration starts *)
    split; [apply Hrem|].
    intros u Hin. rewrite <- app_assoc in Hin. apply in_app_or in Hin.
    destruct Hin as [Hin|[Heq|[[= <-]|[]]]]; [auto|discriminate|].
    match goal with
    | Hn : nth_error (timers w) _ = Some _ |- _ =>
        destruct (Ht _ _ _ (nth_error_In _ _ Hn)) as (_ & _ & m & Hm & Hty & Hc)
    end.
    exists m. rewrite Hc. auto.
  - (* the utterance cannot be built *)
    split; [apply Hrem|]. intros u Hin. apply in_app_or in Hin.
    destruct Hin as [Hin|[Heq|[]]]; [auto|discriminate].
  - (* stop *)
    split; [assumption|]. intros u Hin. apply in_app_or in Hin.
    destruct Hin as [Hin|[Heq|[]]]; [auto|discriminate].
Qed.

Lemma orderly_step w ev :
  permitted eng w ev = true -> orderly w -> orderly (step eng env w ev).
Proof.
  unfold orderly, permitted. intros Hperm [Herr Hshape].
  step_cases eng env w ev; simpl in *; auto.
  - (* a blank submission is not let through *)
    destruct Hshape as [(_ & Hl & _)|(p & _ & Hl & _)];
      rewrite Hl in Hperm; simpl in Hperm; [|discriminate].
    match goal with
    | Hin : string_falsy _ = true |- _ => rewrite Hin in Hperm
    end. discriminate.
  - (* dispatch *)
    split; [reflexivity|]. right.
    destruct Hshape as [(Ha & Hl & n & Hn)|(p & _ & Hl & _)];
      [|rewrite Hl in Hperm; discriminate].
    rewrite Ha. eexists. repeat split. exists n.
    rewrite map_app, Hn. reflexivity.
  - (* a reply, narrated *)
    split; [assumption|]. left.
    destruct Hshape as [(Ha & _)|(p0 & Ha & Hl & n & Hn)].
    + rewrite Ha in *. destruct i; discriminate.
    + rewrite Ha in *. destruct i as [|[|i]]; try discriminate.
      repeat split. exists (S n).
      rewrite map_app, Hn, <- app_assoc. apply turns_snoc.
  - (* a reply, not narrated *)
    split; [assumption|]. left.
    destruct Hshape as [(Ha & _)|(p0 & Ha & Hl & n & Hn)].
    + rewrite Ha in *. destruct i; discriminate.
    + rewrite Ha in *. destruct i as [|[|i]]; try discriminate.
      repeat split. exists (S n).
      rewrite map_app, Hn, <- app_assoc. apply turns_snoc.
Qed.

End InvariantProofs.

Lemma bind_ret_l A B (a : A) (f : A -> M B) : bind (ret a) f = f a.
Proof. unfold bind, ret. destruct (f a); reflexivity. Qed.

(** ** The completion client, further *)

Section ClientFurther.

Variable eng : Engine.

(** X1. A call writes nothing to the console exactly when a key is present
    and the call returns the content read from a 2xx body: the missing key
    and every failure are logged, a reply never is. *)
Theorem console_silent_iff_replied (key : option jsstring) (net : Transport)
  (userInput : jsstring) :
  filter is_console (fst (generateAIResponse eng key net userInput)) = [] <->
  key_missing key = false /\
  exists c, replied eng key net userInput c.
Proof.
  rewrite fst_generateAIResponse.
  destruct (key_missing key) eqn:Hkey.
  - split; [discriminate|intros [? _]; discriminate].
  - rewrite filter_app.
    destruct (snd (attempt eng key net userInput)) as [c|e] eqn:Hsnd.
    + split.
      * intros _. split; [reflexivity|]. exists c.
        apply attempt_normal; assumption.
      * intros _.
        destruct (proj1 (attempt_normal eng key net userInput c) Hsnd)
          as (r & data & Hnet & Hok & _).
        rewrite fst_attempt_exact, Hnet, fst_check_ok, Hok. reflexivity.
    + split.
      * intros H. apply app_eq_nil in H. destruct H as [_ H]. discriminate.
      * intros [_ [c Hc]]. apply attempt_normal in Hc. congruence.
Qed.

(** X2. A request is only sent with a non-empty key, and then its headers
    are the JSON content type and [Authorization: Bearer <key>]. *)
Theorem requests_carry_the_key (key : option jsstring) (net : Transport)
  (userInput : jsstring) (req : Request) :
  In (Fetch req) (fst (generateAIResponse eng key net userInput)) ->
  exists k,
    key = Some k /\ k <> [] /\
    headers req = [ (lit "Content-Type", lit "application/json");
                    (lit "Authorization", lit "Bearer " ++ k) ].
Proof.
  intros Hin.
  assert (Hf : In (Fetch req)
                 (filter is_fetch
                    (fst (generateAIResponse eng key net userInput))))
    by (apply filter_In; split; auto).
  rewrite requests_of_generateAIResponse in Hf.
  destruct key as [k|]; simpl in Hf; [|contradiction].
  destruct k as [|c k]; simpl in Hf; [contradiction|].
  destruct Hf as [[= <-]|[]].
  exists (c :: k). repeat split. discriminate.
Qed.

(** X3. A 2xx body whose [choices] is an empty array is a soft failure:
    [choices[0]] is [undefined], reading [message] from it throws, and the
    call resolves with the apology that embeds that [TypeError]'s message. *)
Theorem empty_choices_is_soft_failure (key : option jsstring)
  (net : Transport) (userInput : jsstring) (r : Response)
  (fields : list (jsstring * json)) :
  key_missing key = false ->
  net (completion_request eng key userInput) = Normal r ->
  ok r = true ->
  json_body r = Normal (JObject fields) ->
  lookup (lit "choices") fields = Val (JArray []) ->
  snd (generateAIResponse eng key net userInput)
  = Normal (Str (apology (cannot_read eng Undefined (lit "message")))).
Proof.
  intros Hkey Hnet Hok Hbody Hchoices.
  unfold generateAIResponse. rewrite Hkey.
  assert (Hthrown : snd (attempt eng key net userInput)
                    = Thrown (TypeError eng Undefined (lit "message"))).
  { rewrite snd_attempt, Hnet, snd_check_ok, Hok, Hbody.
    unfold reply_content. simpl get_field at 1. rewrite Hchoices.
    reflexivity. }
  rewrite (snd_try_catch_thrown _ _ Hthrown). reflexivity.
Qed.

(** X4. Only the first choice counts: the content read from a body depends
    on nothing but the first element of its [choices] array. *)
Theorem only_first_choice_used (fields : list (jsstring * json))
  (first : json) (others : list json) :
  lookup (lit "choices") fields = Val (JArray (first :: others)) ->
  reply_content eng (JObject fields)
  = (msg <- get_field eng (Val first) (lit "message") ;;
     get_field eng msg (lit "content"))%js.
Proof.
  intros H. unfold reply_content.
  change (get_field eng (Val (JObject fields)) (lit "choices"))
    with (@ret value (lookup (lit "choices") fields)).
  rewrite H, bind_ret_l.
  change (get_index0 eng (Val (JArray (first :: others))))
    with (@ret value (Val first)).
  rewrite bind_ret_l. reflexivity.
Qed.

(** X5. When the body of the response cannot be parsed, whatever its
    status, the call logs the request and the parse error and resolves with
    the apology that embeds the parse error's message; the status is not
    reported. *)
Theorem unparsable_body_hides_status (key : option jsstring)
  (net : Transport) (userInput : jsstring) (r : Response) (e : JSError) :
  key_missing key = false ->
  net (completion_request eng key userInput) = Normal r ->
  json_body r = Thrown e ->
  generateAIResponse eng key net userInput
  = ([ Fetch (completion_request eng key userInput);
       ConsoleError [LStr (lit "Error calling Groq API:"); LErr e] ],
     Normal (Str (apology (message e)))).
Proof.
  intros Hkey Hnet Hbody.
  assert (Hthrown : snd (attempt eng key net userInput) = Thrown e)
    by (apply attempt_thrown; eapply body_unreadable; eassumption).
  apply injective_projections.
  - rewrite fst_generateAIResponse, Hkey, Hthrown, fst_attempt_exact, Hnet,
      fst_check_ok, Hbody.
    destruct (ok r); reflexivity.
  - unfold generateAIResponse. rewrite Hkey.
    rewrite (snd_try_catch_thrown _ _ Hthrown). reflexivity.
Qed.

End ClientFurther.

(** ** The component, further *)

Section ComponentFurther.

Variable eng : Engine.
Variable env : Env.

Lemma reachable_run w evs :
  reachable eng env w -> reachable eng env (run eng env w evs).
Proof.
  revert w; induction evs as [|ev evs IH]; intros w H; simpl; [assumption|].
  apply IH. apply reachable_step. assumption.
Qed.

(** The state a settling leaves, for a call that was pending. *)
Lemma settle_explicit w i p net now date :
  nth_error (awaiting w) i = Some p ->
  exists v,
    snd (generateAIResponse eng (VITE_GROQ_API_KEY env) net (prompt p))
    = Normal v /\
    messages (ui (step eng env w (Settle i net now date)))
    = messages (ui w) ++ [aiMessage_of eng now date v] /\
    awaiting (step eng env w (Settle i net now date))
    = remove_nth i (awaiting w) /\
    speechEnabled (ui (step eng env w (Settle i net now date)))
    = speechEnabled (ui w) /\
    utterances (step eng env w (Settle i net now date)) = utterances w /\
    timers (step eng env w (Settle i net now date))
    = timers w ++ (if speech_at_submit p
                   then [{| callback := Narrate true v; delay := 500 |}]
                   else []).
Proof.
  intros Hp.
  destruct (generateAIResponse_resolves eng (VITE_GROQ_API_KEY env) net
              (prompt p)) as [v Hv].
  exists v. split; [assumption|].
  rewrite (@step_settle eng env w i p net now date Hp), Hv.
  unfold handleSubmit_settle.
  destruct (speech_at_submit p); simpl; rewrite ?app_nil_r; repeat split.
Qed.

(** X6. Whether a reply is narrated is decided by the speech toggle as it
    was when the question was submitted: the settling schedules the
    narration, 500 ms later, exactly if speech was enabled at dispatch,
    whatever was toggled while the call was pending, and the timer then
    speaks without looking at the toggle again: the text the reply converts
    to (the empty text for an absent reply) is the one utterance queued, and
    a reply that has no text leaves the queue empty. *)
Theorem narration_decided_at_dispatch (w : World) (now date : Z)
  (evs : list Event) (net : Transport) (now' date' : Z) :
  string_falsy (trim (input (ui w))) = false ->
  Forall (fun ev => submission_event ev = false) evs ->
  let w2 := run eng env (step eng env w (Submit now date)) evs in
  let w3 :=
    step eng env w2 (Settle (List.length (awaiting w)) net now' date') in
  exists reply,
    snd (generateAIResponse eng (VITE_GROQ_API_KEY env) net
           (trim (input (ui w)))) = Normal reply /\
    timers w3
    = timers w2 ++ (if speechEnabled (ui w)
                    then [{| callback := Narrate true reply; delay := 500 |}]
                    else []) /\
    (speechEnabled (ui w) = true ->
     speechSynthesis_in_window env = true ->
     utterances (step eng env w3 (Fire (List.length (timers w2))))
     = match optional_DOMString eng reply with
       | Normal spoken => [{| text := spoken; rate := 9 # 10; pitch := 1;
                              volume := 8 # 10 |}]
       | Thrown _ => []
       end).
Proof.
  intros Hin Hevs w2 w3.
  set (w1 := step eng env w (Submit now date)) in *.
  assert (Ha1 : awaiting w1
                = awaiting w ++ [{| prompt := trim (input (ui w));
                                    speech_at_submit := speechEnabled (ui w) |}]).
  { subst w1; simpl; unfold handleSubmit_begin; rewrite Hin; reflexivity. }
  destruct (@run_between eng env w1 evs Hevs) as [_ Ha2]. fold w2 in Ha2.
  assert (Hp : nth_error (awaiting w2) (List.length (awaiting w))
               = Some {| prompt := trim (input (ui w));
                         speech_at_submit := speechEnabled (ui w) |}).
  { rewrite Ha2, Ha1. apply nth_error_snoc. }
  destruct (settle_explicit w2 _ _ net now' date' Hp)
    as (reply & Hv & _ & _ & _ & _ & Ht).
  fold w3 in Ht. simpl in Hv, Ht.
  exists reply. split; [assumption|]. split; [assumption|].
  intros Hon Hsynth. rewrite Hon in Ht.
  simpl. rewrite Ht, nth_error_snoc. simpl.
  unfold speakText. rewrite Hsynth. simpl.
  destruct (optional_DOMString eng reply); reflexivity.
Qed.

(** X7. A submission empties the input field, so a second submit event
    that follows it directly takes the validation branch: it adds no message,
    starts no call and shows the validation message. *)
Theorem repeated_submit_is_rejected (w : World) (now date now' date' : Z) :
  string_falsy (trim (input (ui w))) = false ->
  let w1 := step eng env w (Submit now date) in
  let w2 := step eng env w1 (Submit now' date') in
  input (ui w1) = [] /\
  messages (ui w2) = messages (ui w1) /\
  awaiting w2 = awaiting w1 /\
  log w2 = log w1 /\
  error (ui w2) = validation_message.
Proof.
  intros Hin w1 w2.
  assert (H1 : w1 = set_awaiting
                 (awaiting w ++ [{| prompt := trim (input (ui w));
                                    speech_at_submit := speechEnabled (ui w) |}])
                 (setError [] (setIsLoading true (setInput []
                    (setMessages
                       (fun prev => prev ++ [userMessage_of eng now date w])
                       w))))).
  { subst w1. simpl. unfold handleSubmit_begin. rewrite Hin. reflexivity. }
  subst w2. rewrite H1. repeat split.
Qed.

(** X8. Replies are appended in the order their calls settle, not in the
    order the questions were asked: with two calls pending, settling the
    second before the first puts its reply first. *)
Theorem replies_follow_settle_order (w : World) (p1 p2 : Pending)
  (net1 net2 : Transport) (now date now' date' : Z) :
  awaiting w = [p1; p2] ->
  let w' := run eng env w [Settle 1 net2 now date; Settle 0 net1 now' date'] in
  exists v1 v2,
    snd (generateAIResponse eng (VITE_GROQ_API_KEY env) net1 (prompt p1))
    = Normal v1 /\
    snd (generateAIResponse eng (VITE_GROQ_API_KEY env) net2 (prompt p2))
    = Normal v2 /\
    map content (messages (ui w')) = map content (messages (ui w)) ++ [v2; v1] /\
    awaiting w' = [].
Proof.
  intros Ha w'.
  set (wa := step eng env w (Settle 1 net2 now date)).
  assert (Hrun : w' = step eng env wa (Settle 0 net1 now' date'))
    by reflexivity.
  rewrite Hrun. clear Hrun w'.
  assert (Hp2 : nth_error (awaiting w) 1 = Some p2) by (rewrite Ha; reflexivity).
  destruct (settle_explicit w 1 p2 net2 now date Hp2)
    as (v2 & Hv2 & Hm2 & Ha2 & _).
  fold wa in Hm2, Ha2. rewrite Ha in Ha2.
  change (remove_nth 1 [p1; p2]) with [p1] in Ha2.
  assert (Hp1 : nth_error (awaiting wa) 0 = Some p1)
    by (rewrite Ha2; reflexivity).
  destruct (settle_explicit wa 0 p1 net1 now' date' Hp1)
    as (v1 & Hv1 & Hm1 & Ha1 & _).
  exists v1, v2. repeat split; try assumption.
  - rewrite Hm1, Hm2, !map_app, <- app_assoc. reflexivity.
  - rewrite Ha1, Ha2. reflexivity.
Qed.

(** X9. Stopping the speech silences the engine but cancels no timer: a
    narration that is scheduled and has not started yet still starts when
    its timer fires, with the text its reply converts to (nothing is queued
    if the reply has no text). *)
Theorem stop_keeps_scheduled_narration (w : World) (i : nat) (reply : value)
  (ms : N) :
  speechSynthesis_in_window env = true ->
  nth_error (timers w) i
  = Some {| callback := Narrate true reply; delay := ms |} ->
  let w1 := step eng env w StopSpeaking in
  isSpeaking (ui w1) = false /\
  utterances w1 = [] /\
  timers w1 = timers w /\
  utterances (step eng env w1 (Fire i))
  = match optional_DOMString eng reply with
    | Normal spoken => [{| text := spoken; rate := 9 # 10; pitch := 1;
                           volume := 8 # 10 |}]
    | Thrown _ => []
    end.
Proof.
  intros Hsynth Ht w1. subst w1. simpl. unfold stopSpeaking.
  rewrite Hsynth. simpl. rewrite Ht. simpl.
  unfold speakText. rewrite Hsynth. simpl.
  destruct (optional_DOMString eng reply); repeat split.
Qed.

(** X10. In every state the page can reach, each user message has either
    its reply in the conversation or its call still pending: the number of
    user messages is the number of [ai] messages plus the number of pending
    calls. *)
Theorem questions_answered_or_pending (w : World) :
  reachable eng env w ->
  List.length (filter (has_type user) (messages (ui w)))
  = (List.length (filter (has_type ai) (messages (ui w)))
     + List.length (awaiting w))%nat.
Proof.
  intros H. change (balanced w).
  induction H as [|w ev _ IH]; [reflexivity|].
  apply balanced_step; assumption.
Qed.

(** X11. Every user message of a reachable conversation holds a string that
    is not empty and has no white space at either end. *)
Theorem user_messages_are_trimmed (w : World) (m : Message) :
  reachable eng env w ->
  In m (messages (ui w)) ->
  type m = user ->
  exists s, content m = Str s /\ s <> [] /\ trimmed s = true.
Proof.
  intros H. revert m. change (clean_users w).
  induction H as [|w ev _ IH]; [intros m []|].
  apply clean_users_step; assumption.
Qed.

(** X12. While the page is loading, the conversation pane is on screen
    with its "Thinking..." indicator: the indicator is rendered inside the
    non-empty branch only, and a reachable loading state always has a
    message. *)
Theorem thinking_indicator_shown_while_loading (w : World) :
  reachable eng env w ->
  isLoading (ui w) = true ->
  pane (render eng (ui w)) = Conversation (messages (ui w)) true.
Proof.
  intros H Hl.
  assert (Hne : isLoading (ui w) = true -> messages (ui w) <> []).
  { clear Hl. induction H as [|w ev _ IH]; [discriminate|].
    apply loading_step; assumption. }
  specialize (Hne Hl). simpl. rewrite Hl.
  destruct (messages (ui w)); [contradiction|reflexivity].
Qed.

(** X13. A banner on a reachable page is the validation message, and a
    3000 ms timer that clears it is pending: no banner stays for good. *)
Theorem banner_always_has_its_timer (w : World) (shown : jsstring) :
  reachable eng env w ->
  banner (render eng (ui w)) = Some shown ->
  shown = lit "Please enter a question or command" /\
  In {| callback := ClearError; delay := 3000 |} (timers w) /\
  error (ui (run_callback eng env ClearError w)) = [].
Proof.
  intros H Hb.
  assert (Hs : banner_scheduled w).
  { clear Hb. induction H as [|w ev _ IH]; [intros Habs; contradiction|].
    apply banner_scheduled_step; assumption. }
  simpl in Hb. destruct (error (ui w)) as [|c r] eqn:He; [discriminate|].
  injection Hb as <-.
  unfold banner_scheduled in Hs. rewrite He in Hs.
  destruct Hs as [Hv Hin]; [discriminate|]. auto.
Qed.

(** X14. The network only ever sees non-blank prompts: every request in the
    log of a reachable page was sent with a key present and is the request
    for a prompt that is not empty and has no white space at its ends. *)
Theorem prompts_are_never_blank (w : World) (req : Request) :
  reachable eng env w ->
  In (Fetch req) (log w) ->
  key_missing (VITE_GROQ_API_KEY env) = false /\
  exists p, p <> [] /\ trimmed p = true /\
            req = completion_request eng (VITE_GROQ_API_KEY env) p.
Proof.
  intros H. revert req.
  assert (Hc : clean_prompts eng env w).
  { induction H as [|w ev _ IH]; [split; intros ? []|].
    apply clean_prompts_step; assumption. }
  apply Hc.
Qed.

(** X15. The speech engine never holds more than one utterance. *)
Theorem speech_queue_holds_at_most_one (w : World) :
  reachable eng env w ->
  (List.length (utterances w) <= 1)%nat.
Proof.
  intros H. induction H as [|w ev _ IH]; [simpl; lia|].
  apply queue_step; assumption.
Qed.

(** X16. On a platform without speech synthesis the page never calls the
    speech engine, whatever happens: no cancel, no speak, nothing queued. *)
Theorem no_speech_without_synthesis (w : World) :
  speechSynthesis_in_window env = false ->
  reachable eng env w ->
  filter is_speech (log w) = [] /\ utterances w = [].
Proof.
  intros Hno H. change (speech_untouched w).
  induction H as [|w ev _ IH]; [split; reflexivity|].
  apply speech_untouched_step; assumption.
Qed.

(** X17. Only replies are read aloud: every utterance the page has handed
    to the speech engine has the text that the content of an [ai] message of
    the conversation converts to (the empty text when that content is
    absent), with rate 0.9, pitch 1 and volume 0.8. *)
Theorem only_replies_are_spoken (w : World) (u : Utterance) :
  reachable eng env w ->
  In (SpeechSpeak u) (log w) ->
  exists m,
    In m (messages (ui w)) /\ type m = ai /\
    optional_DOMString eng (content m) = Normal (text u) /\
    rate u = 9 # 10 /\ pitch u = 1 /\ volume u = 8 # 10.
Proof.
  intros H.
  assert (Hr : replies_only eng w).
  { induction H as [|w ev _ IH]; [split; intros; contradiction|].
    apply replies_only_step; assumption. }
  intros Hin.
  destruct (proj2 Hr u Hin) as (m & Hm & Hty & Hc & Heq).
  exists m. split; [assumption|]. split; [assumption|].
  split; [assumption|]. rewrite Heq. repeat split.
Qed.

Lemma ui_reachable_orderly w : ui_reachable eng env w -> orderly w.
Proof.
  intros H. induction H as [|w ev _ IH Hperm].
  - split; [reflexivity|]. left. repeat split. exists O. reflexivity.
  - apply orderly_step; assumption.
Qed.

(** X18. Driven through its controls (the input field and the submit
    button disabled as rendered), the page has at most one call pending, and
    it is loading exactly while one is. *)
Theorem ui_one_call_in_flight (w : World) :
  ui_reachable eng env w ->
  (List.length (awaiting w) <= 1)%nat /\
  isLoading (ui w) = negb (Nat.eqb (List.length (awaiting w)) 0).
Proof.
  intros H. destruct (ui_reachable_orderly w H) as [_ Hs].
  destruct Hs as [(-> & -> & _)|(p & -> & -> & _)]; simpl; auto.
Qed.

(** X19. Driven through its controls, the conversation is a strict
    alternation that starts with the user: some number of question-reply
    pairs, followed by one unanswered question exactly while loading. *)
Theorem ui_conversation_alternates (w : World) :
  ui_reachable eng env w ->
  exists n,
    map type (messages (ui w))
    = turns n ++ (if isLoading (ui w) then [user] else []).
Proof.
  intros H. destruct (ui_reachable_orderly w H) as [_ Hs].
  destruct Hs as [(_ & -> & n & ->)|(p & _ & -> & n & ->)];
    exists n; rewrite ?app_nil_r; reflexivity.
Qed.

(** X20. Driven through its controls, the page never shows an error
    banner: the submit button is disabled for blank input, so the validation
    branch of [handleSubmit] is not reached, and the failure branch never
    is. *)
Theorem ui_shows_no_banner (w : World) :
  ui_reachable eng env w ->
  banner (render eng (ui w)) = None.
Proof.
  intros H. destruct (ui_reachable_orderly w H) as [He _].
  simpl. rewrite He. reflexivity.
Qed.

End ComponentFurther.
(** ** Concrete runs *)

(** C3. On a 200 response whose first choice has [content: null], the
    client, declared to return a [Promise<string>], resolves with [null]: the
    value of [data.choices[0].message.content] is returned unchecked, and it
    becomes the content of the [ai] message. The call does not raise. *)
Theorem generateAIResponse_resolves_with_null :
  snd (generateAIResponse Sample.engine Sample.key
         (Sample.replies (Sample.chat_completion JNull)) Sample.question)
  = Normal (Val JNull) /\
  ~ (exists s : jsstring,
       snd (generateAIResponse Sample.engine Sample.key
              (Sample.replies (Sample.chat_completion JNull)) Sample.question)
       = Normal (Str s)) /\
  map content
    (messages (ui (run Sample.engine Sample.with_key
                     (Sample.typed "What is a black hole?")
                     [Submit 1000 1000;
                      Settle 0 (Sample.replies (Sample.chat_completion JNull))
                        2000 2000])))
  = [Str Sample.question; Val JNull].
Proof.
  split; [reflexivity|]. split; [|reflexivity].
  intros [s H]. vm_compute in H. discriminate.
Qed.

Lemma generateAIResponse_never_raises_witness :
  snd (generateAIResponse Sample.engine Sample.key Sample.offline
         Sample.question)
  = Normal (Str (lit "I apologize, but I encountered an issue fetching a response. Please try again. (Failed to fetch)")).
Proof.
  destruct (@generateAIResponse_never_raises Sample.engine Sample.key
              Sample.offline Sample.question) as (v & Hv & _ & Hfail & _).
  rewrite Hv. f_equal.
  apply (Hfail eq_refl (mkError (lit "TypeError") (lit "Failed to fetch"))).
  apply fetch_rejected. reflexivity.
Defined.



(** A payload whose [message] is an object with an own [toString] key has
    no text: building the error throws, and the reply embeds that
    [TypeError] instead of the description. *)
Lemma unprintable_payload_reply :
  snd (generateAIResponse Sample.engine Sample.key Scenario.rejects_oddly
         Sample.question)
  = Normal (Str (lit "I apologize, but I encountered an issue fetching a response. Please try again. (Cannot convert object to primitive value)")).
Proof. reflexivity. Qed.

(** C6. Speech is on when the question is submitted and switched off while
    the call is pending. When the narration timer fires, the page's
    [speechEnabled] is false, yet [speakText] cancels and speaks: it tests
    the [speechEnabled] of the render that created it, not the current
    one. *)
Theorem speakText_speaks_while_toggle_off :
  speechEnabled (ui Scenario.toggled_off) = false /\
  timers Scenario.toggled_off
  = [{| callback := Narrate true (Val Scenario.answer); delay := 500 |}] /\
  log (step Sample.engine Sample.with_key Scenario.toggled_off (Fire 0))
  = log Scenario.toggled_off
    ++ [SpeechCancel; SpeechSpeak Scenario.spoken_answer] /\
  utterances (step Sample.engine Sample.with_key Scenario.toggled_off (Fire 0))
  = [Scenario.spoken_answer].
Proof. repeat split. Qed.


Lemma round_trip_appends_two_witness :
  List.length
    (messages (ui (run Sample.engine Sample.with_key
                     (Sample.typed "  What is a black hole? ")
                     [Submit 1000 1000; ToggleSpeech; Change (lit "next");
                      Settle 0 (Sample.replies
                                  (Sample.chat_completion
                                     (JString (lit "A region of spacetime."))))
                        2000 2000]))) = 2%nat.
Proof.
  assert (Hquiet : Forall (fun ev => submission_event ev = false)
                     [ToggleSpeech; Change (lit "next")])
    by (repeat constructor).
  destruct (@round_trip_appends_two Sample.engine Sample.with_key
              (Sample.typed "  What is a black hole? ") 1000 1000
              [ToggleSpeech; Change (lit "next")]
              (Sample.replies
                 (Sample.chat_completion
                    (JString (lit "A region of spacetime."))))
              2000 2000 eq_refl Hquiet)
    as (aiMessage & _ & _ & _ & _ & _ & _ & Hlen).
  exact Hlen.
Defined.

Lemma empty_submission_rejected_witness :
  messages (ui (step Sample.engine Sample.with_key (Sample.typed "   ")
                  (Submit 1000 1000))) = [].
Proof.
  exact (proj1 (@empty_submission_rejected Sample.engine Sample.with_key
                  (Sample.typed "   ") 1000 1000 eq_refl)).
Defined.

Lemma missing_key_reply_appended_witness :
  snd (generateAIResponse Sample.engine
         (VITE_GROQ_API_KEY Sample.without_key) Sample.offline Sample.question)
  = Normal (Str (lit "I'm sorry, I cannot connect to the AI service. Please ensure the API key is configured correctly.")).
Proof.
  exact (proj1 (@missing_key_reply_appended Sample.engine Sample.without_key
                  (step Sample.engine Sample.without_key
                     (Sample.typed "What is a black hole?") (Submit 1000 1000))
                  0 {| prompt := Sample.question; speech_at_submit := true |}
                  Sample.offline 2000 2000 eq_refl eq_refl)).
Defined.

Lemma loading_flag_returns_to_idle_witness :
  isLoading (ui (step Sample.engine Sample.with_key
                   (Sample.typed "What is a black hole?") (Submit 1000 1000)))
  = true /\
  isLoading
    (ui (handleSubmit_settle Sample.engine
           {| prompt := Sample.question; speech_at_submit := true |}
           (Thrown (mkError (lit "Error") (lit "rejected"))) 2000 2000
           (step Sample.engine Sample.with_key
              (Sample.typed "What is a black hole?") (Submit 1000 1000))))
  = false.
Proof.
  destruct (@loading_flag_returns_to_idle Sample.engine Sample.with_key
              (Sample.typed "What is a black hole?") 1000 1000
              {| prompt := Sample.question; speech_at_submit := true |}
              (Thrown (mkError (lit "Error") (lit "rejected"))) 2000 2000
              (step Sample.engine Sample.with_key
                 (Sample.typed "What is a black hole?") (Submit 1000 1000))
              0 Sample.offline eq_refl eq_refl) as (H1 & H2 & _).
  split; assumption.
Defined.

Lemma hard_failure_unreachable_witness :
  error (ui (run Sample.engine Sample.with_key
               (Sample.typed "What is a black hole?")
               [Submit 1000 1000; Settle 0 Sample.offline 2000 2000]))
  <> lit "Failed to get response. Please try again.".
Proof.
  apply (proj2 (@hard_failure_unreachable Sample.engine Sample.with_key)).
  repeat apply reachable_step.
  exact (reachable_step (Change (lit "What is a black hole?"))
           (reachable_initial Sample.engine Sample.with_key)).
Defined.

(** ** Concrete runs of the further properties *)

Lemma requests_carry_the_key_witness :
  exists k,
    Sample.key = Some k /\ k <> [] /\
    headers (completion_request Sample.engine Sample.key Sample.question)
    = [ (lit "Content-Type", lit "application/json");
        (lit "Authorization", lit "Bearer " ++ k) ].
Proof.
  apply (requests_carry_the_key Sample.engine Sample.key Sample.offline
           Sample.question).
  left. reflexivity.
Defined.

Lemma empty_choices_is_soft_failure_witness :
  snd (generateAIResponse Sample.engine Sample.key Scenario.no_choices
         Sample.question)
  = Normal (Str (lit "I apologize, but I encountered an issue fetching a response. Please try again. (Cannot read properties of undefined (reading 'message'))")).
Proof.
  exact (empty_choices_is_soft_failure Sample.engine Sample.key
           Scenario.no_choices Sample.question
           {| status := 200; statusText := lit "OK";
              json_body := Normal (JObject [ (lit "choices", JArray []) ]) |}
           [ (lit "choices", JArray []) ]
           eq_refl eq_refl eq_refl eq_refl eq_refl).
Defined.

Lemma only_first_choice_used_witness :
  snd (reply_content Sample.engine
         (JObject [ (lit "choices",
                     JArray [ JObject [ (lit "message",
                                JObject [ (lit "content", Scenario.answer) ]) ];
                              JNull ]) ]))
  = Normal (Val Scenario.answer).
Proof.
  rewrite (only_first_choice_used Sample.engine
             [ (lit "choices",
                JArray [ JObject [ (lit "message",
                           JObject [ (lit "content", Scenario.answer) ]) ];
                         JNull ]) ]
             (JObject [ (lit "message",
                         JObject [ (lit "content", Scenario.answer) ]) ])
             [JNull] eq_refl).
  reflexivity.
Defined.

Lemma unparsable_body_hides_status_witness :
  snd (generateAIResponse Sample.engine Sample.key Scenario.bad_gateway
         Sample.question)
  = Normal (Str (lit "I apologize, but I encountered an issue fetching a response. Please try again. (Unexpected token < in JSON)")).
Proof.
  rewrite (unparsable_body_hides_status Sample.engine Sample.key
             Scenario.bad_gateway Sample.question
             {| status := 502; statusText := lit "Bad Gateway";
                json_body := Thrown (mkError (lit "SyntaxError")
                                (lit "Unexpected token < in JSON")) |}
             (mkError (lit "SyntaxError") (lit "Unexpected token < in JSON"))
             eq_refl eq_refl eq_refl).
  reflexivity.
Defined.

Lemma narration_decided_at_dispatch_witness :
  speechEnabled
    (ui (run Sample.engine Sample.with_key
           (Sample.typed "What is a black hole?")
           [Submit 1000 1000; ToggleSpeech;
            Settle 0 Scenario.answers 2000 2000])) = false /\
  utterances
    (run Sample.engine Sample.with_key (Sample.typed "What is a black hole?")
       [Submit 1000 1000; ToggleSpeech;
        Settle 0 Scenario.answers 2000 2000; Fire 0])
  = [Scenario.spoken_answer].
Proof.
  split; [reflexivity|].
  assert (Hquiet : Forall (fun ev => submission_event ev = false)
                     [ToggleSpeech]) by (repeat constructor).
  destruct (narration_decided_at_dispatch Sample.engine Sample.with_key
              (Sample.typed "What is a black hole?") 1000 1000
              [ToggleSpeech] Scenario.answers 2000 2000 eq_refl Hquiet)
    as (reply & Hv & _ & Hspeak).
  change (Normal (Val Scenario.answer) = Normal reply) in Hv.
  injection Hv as <-.
  exact (Hspeak eq_refl eq_refl).
Defined.

Lemma repeated_submit_is_rejected_witness :
  error (ui (run Sample.engine Sample.with_key
               (Sample.typed "What is a black hole?")
               [Submit 1000 1000; Submit 1001 1001]))
  = lit "Please enter a question or command".
Proof.
  exact (proj2 (proj2 (proj2 (proj2
           (repeated_submit_is_rejected Sample.engine Sample.with_key
              (Sample.typed "What is a black hole?") 1000 1000 1001 1001
              eq_refl))))).
Defined.

Lemma replies_follow_settle_order_witness :
  map content
    (messages
       (ui (run Sample.engine Sample.with_key Scenario.two_pending
              [Settle 1 Scenario.answers 3 3; Settle 0 Sample.offline 4 4])))
  = map content (messages (ui Scenario.two_pending))
    ++ [ Val Scenario.answer;
         Str (lit "I apologize, but I encountered an issue fetching a response. Please try again. (Failed to fetch)") ].
Proof.
  destruct (replies_follow_settle_order Sample.engine Sample.with_key
              Scenario.two_pending
              {| prompt := lit "first"; speech_at_submit := true |}
              {| prompt := lit "second"; speech_at_submit := true |}
              Sample.offline Scenario.answers 3 3 4 4 eq_refl)
    as (v1 & v2 & Hv1 & Hv2 & Hm & _).
  change (Normal (Str (lit "I apologize, but I encountered an issue fetching a response. Please try again. (Failed to fetch)"))
          = Normal v1) in Hv1.
  change (Normal (Val Scenario.answer) = Normal v2) in Hv2.
  injection Hv1 as <-. injection Hv2 as <-.
  exact Hm.
Defined.

Lemma stop_keeps_scheduled_narration_witness :
  utterances
    (step Sample.engine Sample.with_key
       (step Sample.engine Sample.with_key Scenario.answered StopSpeaking)
       (Fire 0))
  = match optional_DOMString Sample.engine (Val Scenario.answer) with
    | Normal spoken => [{| text := spoken; rate := 9 # 10; pitch := 1;
                           volume := 8 # 10 |}]
    | Thrown _ => []
    end.
Proof.
  exact (proj2 (proj2 (proj2
           (stop_keeps_scheduled_narration Sample.engine Sample.with_key
              Scenario.answered 0 (Val Scenario.answer) 500
              eq_refl eq_refl)))).
Defined.

Lemma questions_answered_or_pending_witness :
  List.length
    (filter (has_type user)
       (messages (ui (run Sample.engine Sample.with_key initial
                        Scenario.asking))))
  = (List.length
       (filter (has_type ai)
          (messages (ui (run Sample.engine Sample.with_key initial
                           Scenario.asking))))
     + List.length (awaiting (run Sample.engine Sample.with_key initial
                                Scenario.asking)))%nat.
Proof.
  exact (questions_answered_or_pending Sample.engine Sample.with_key _
           (reachable_run Sample.engine Sample.with_key initial
              Scenario.asking
              (reachable_initial Sample.engine Sample.with_key))).
Defined.

Lemma user_messages_are_trimmed_witness :
  exists s,
    content Scenario.question_message = Str s /\ s <> [] /\ trimmed s = true.
Proof.
  apply (user_messages_are_trimmed Sample.engine Sample.with_key
           (run Sample.engine Sample.with_key initial Scenario.exchange)
           Scenario.question_message).
  - apply reachable_run, reachable_initial.
  - left. reflexivity.
  - reflexivity.
Defined.

Lemma thinking_indicator_shown_while_loading_witness :
  pane (render Sample.engine
          (ui (run Sample.engine Sample.with_key initial Scenario.asking)))
  = Conversation [Scenario.question_message] true.
Proof.
  apply (thinking_indicator_shown_while_loading Sample.engine Sample.with_key
           (run Sample.engine Sample.with_key initial Scenario.asking)).
  - apply reachable_run, reachable_initial.
  - reflexivity.
Defined.

Lemma banner_always_has_its_timer_witness :
  In {| callback := ClearError; delay := 3000 |}
     (timers (run Sample.engine Sample.with_key initial
                [Change (lit "   "); Submit 1000 1000])).
Proof.
  apply (banner_always_has_its_timer Sample.engine Sample.with_key
           (run Sample.engine Sample.with_key initial
              [Change (lit "   "); Submit 1000 1000])
           (lit "Please enter a question or command")).
  - apply reachable_run, reachable_initial.
  - reflexivity.
Defined.

Lemma prompts_are_never_blank_witness :
  key_missing Sample.key = false /\
  exists p,
    p <> [] /\ trimmed p = true /\
    completion_request Sample.engine Sample.key Sample.question
    = completion_request Sample.engine Sample.key p.
Proof.
  apply (prompts_are_never_blank Sample.engine Sample.with_key
           (run Sample.engine Sample.with_key initial Scenario.exchange)).
  - apply reachable_run, reachable_initial.
  - left. reflexivity.
Defined.

Lemma speech_queue_holds_at_most_one_witness :
  (List.length
     (utterances (run Sample.engine Sample.with_key initial
                    Scenario.exchange)) <= 1)%nat.
Proof.
  apply (speech_queue_holds_at_most_one Sample.engine Sample.with_key).
  apply reachable_run, reachable_initial.
Defined.

Lemma no_speech_without_synthesis_witness :
  filter is_speech
    (log (run Sample.engine Scenario.mute initial Scenario.exchange)) = [] /\
  utterances (run Sample.engine Scenario.mute initial Scenario.exchange) = [].
Proof.
  apply (no_speech_without_synthesis Sample.engine Scenario.mute).
  - reflexivity.
  - apply reachable_run, reachable_initial.
Defined.

Lemma only_replies_are_spoken_witness :
  exists m,
    In m (messages (ui (run Sample.engine Sample.with_key initial
                          Scenario.exchange))) /\
    type m = ai /\
    optional_DOMString Sample.engine (content m)
    = Normal (text Scenario.spoken_answer) /\
    rate Scenario.spoken_answer = 9 # 10 /\
    pitch Scenario.spoken_answer = 1 /\
    volume Scenario.spoken_answer = 8 # 10.
Proof.
  apply (only_replies_are_spoken Sample.engine Sample.with_key).
  - apply reachable_run, reachable_initial.
  - right. right. left. reflexivity.
Defined.

Lemma asking_ui_reachable :
  ui_reachable Sample.engine Sample.with_key
    (run Sample.engine Sample.with_key initial Scenario.asking).
Proof.
  apply (@ui_reachable_step Sample.engine Sample.with_key
           (step Sample.engine Sample.with_key initial
              (Change Sample.question))
           (Submit 1000 1000)); [|reflexivity].
  apply (@ui_reachable_step Sample.engine Sample.with_key initial
           (Change Sample.question)); [|reflexivity].
  apply ui_reachable_initial.
Qed.

Lemma ui_one_call_in_flight_witness :
  (List.length
     (awaiting (run Sample.engine Sample.with_key initial Scenario.asking))
   <= 1)%nat /\
  isLoading (ui (run Sample.engine Sample.with_key initial Scenario.asking))
  = negb (Nat.eqb
            (List.length
               (awaiting (run Sample.engine Sample.with_key initial
                            Scenario.asking))) 0).
Proof.
  exact (ui_one_call_in_flight Sample.engine Sample.with_key _
           asking_ui_reachable).
Defined.

Lemma ui_conversation_alternates_witness :
  exists n,
    map type
      (messages (ui (run Sample.engine Sample.with_key initial
                       Scenario.asking)))
    = turns n
      ++ (if isLoading (ui (run Sample.engine Sample.with_key initial
                              Scenario.asking))
          then [user] else []).
Proof.
  exact (ui_conversation_alternates Sample.engine Sample.with_key _
           asking_ui_reachable).
Defined.

Lemma ui_shows_no_banner_witness :
  banner (render Sample.engine
            (ui (run Sample.engine Sample.with_key initial Scenario.asking)))
  = None.
Proof.
  exact (ui_shows_no_banner Sample.engine Sample.with_key _
           asking_ui_reachable).
Defined.
